(** * Reversible analytic differentiation on the quantum tape

    A shallow embedding of [pennylane/beta/tapes/rev.py] (class
    [ReversibleTape]) together with the parts of the base [QuantumTape] that
    it calls.  Operations are Python objects: they live in a store, the tape
    queue holds references to them, and [copy]/[inv] act on the store.  The
    device and the operation catalogue are collaborators of the tape and are
    taken as a record of primitives ([Backend]). *)

From Stdlib Require Import Ascii String.
From stdpp Require Import base option list strings pretty gmap.


(** ** Exceptions and results *)

Inductive Exc :=
| IndexError
| KeyError
| TypeError
| NotImplementedError
| ValueError (msg : string).

Inductive Result (A : Type) :=
| Ok (a : A)
| Raise (e : Exc).
Arguments Ok {A} a.
Arguments Raise {A} e.

Definition is_ok {A} (r : Result A) : bool :=
  match r with Ok _ => true | Raise _ => false end.

Definition rbind {A B} (r : Result A) (f : A → Result B) : Result B :=
  match r with Ok a => f a | Raise e => Raise e end.

Definition of_option {A} (o : option A) (e : Exc) : Result A :=
  match o with Some a => Ok a | None => Raise e end.

Fixpoint rmapM {A B} (f : A → Result B) (l : list A) : Result (list B) :=
  match l with
  | [] => Ok []
  | a :: l' => rbind (f a) (λ b, rbind (rmapM f l') (λ bs, Ok (b :: bs)))
  end.

(** ** Python list and string helpers *)

(** [l * n] on a Python list. *)
Definition py_list_mul {A} (l : list A) (n : nat) : list A :=
  concat (replicate n l).

(** [l[i:]] and [l[i:j]] for non-negative bounds. *)
Definition py_slice_from {A} (l : list A) (i : nat) : list A := drop i l.
Definition py_slice {A} (l : list A) (i j : nat) : list A := take (j - i) (drop i l).

(** [s.replace(a, b)] for one-character [a] and [b]. *)
Definition str_replace (a b : ascii) (s : list ascii) : list ascii :=
  map (λ c, if decide (c = a) then b else c) s.

(** [string.ascii_letters]. *)
Definition ABC : list ascii :=
  list_ascii_of_string "abcdefghijklmnopqrstuvwxyzABCDEFGHIJKLMNOPQRSTUVWXYZ".

(** [ABC_ARRAY[idx]] with a list of indices: numpy raises [IndexError] when
    an index is outside the array. *)
Definition ABC_ARRAY_take (idx : list nat) : Result (list ascii) :=
  rmapM (λ i, of_option (ABC !! i) IndexError) idx.

(** ** Collaborators: numeric types, device primitives, operation catalogue *)

Inductive ReturnType := Expectation | Variance | Probability | Sample.

#[global] Instance ReturnType_eq_dec : EqDecision ReturnType.
Proof. solve_decision. Defined.

Section Tape.

(** Real scalars (gate parameters, multipliers, derivatives), complex
    scalars (matrix elements) and device arrays (statevectors, matrices). *)
Context {R C Tensor : Type}.

Record Operation := mkOperation {
  name : string;
  wires : list nat;
  parameters : list R;
  inverse : bool;
  (** class attribute [grad_method]: ["A"], ["F"] or [None] *)
  grad_method : option string
}.

Record Observable := mkObservable {
  obs_name : string;
  obs_wires : list nat;
  obs_matrix : Tensor
}.

Record MeasurementProcess := mkMeasurement {
  return_type : ReturnType;
  obs : Observable
}.

(** What a device is handed when it executes a tape: the operations as they
    are at the time of the call, and the measurements. *)
Record Circuit := mkCircuit {
  circ_ops : list Operation;
  circ_measurements : list MeasurementProcess
}.

Record Device := mkDevice {
  _state : Tensor;
  _pre_rotated_state : Tensor
}.

(** [self._par_info[idx]]: the owning operation (a reference into the
    store) and the position of the parameter inside it. *)
Record ParInfo := mkParInfo {
  par_op : nat;
  par_p_idx : nat
}.

Record QuantumTape := mkTape {
  (** the queue of operations, as references into the store *)
  operations : list nat;
  measurements : list MeasurementProcess;
  _par_info : gmap nat ParInfo;
  (** [list(self.trainable_params)] *)
  trainable_params : list nat;
  (** [self._state], the cached pre-measurement statevector *)
  self_state : option Tensor;
  (** [self._graph is not None] *)
  graph_built : bool
}.

(** Calls seen by a spy on [execute_device] and on [device.execute]; the
    latter records the device as it is when the call is made. *)
Inductive Event :=
| Spy_execute_device (params : list R)
| Spy_device_execute (c : Circuit) (d : Device)
| Spy_device_jacobian (c : Circuit) (d : Device).

Record World := mkWorld {
  store : list Operation;
  self : QuantumTape;
  device : Device;
  trace : list Event
}.

Record Backend := mkBackend {
  num_wires : nat;
  (** [device.execute(tape)]: acts on the device state, returns raw results *)
  device_execute : Circuit → Device → Device * list R;
  (** native Jacobian of the device *)
  device_jacobian : Circuit → Device → Device * list (list R);
  _reshape : Tensor → list nat → Tensor;
  _conj : Tensor → Tensor;
  _einsum : list ascii → Tensor → Tensor → Tensor → C;
  imag : C → R;
  (** real arithmetic of the host language *)
  two : R;
  zero : R;
  rmul : R → R → R;
  (** printed form of a return type in an error message *)
  return_type_str : ReturnType → string;
  (** [cls.generator] by operation name: constructor name and multiplier *)
  generator : string → option string * R;
  (** [Rot.decomposition] applied to the parameters and the wires *)
  Rot_decomposition : list R → list nat → list Operation;
  (** finite differences: shifted arguments and difference quotients *)
  fd_forward : list R → nat → list R;
  fd_backward : list R → nat → list R;
  fd_quotient : list R → list R → list R
}.

Context (B : Backend).

(** ** [ReversibleTape._matrix_elem] *)

Definition _matrix_elem (vec1 : Tensor) (ob : Observable) (vec2 : Tensor) : Result C :=
  let mat := _reshape B (obs_matrix ob)
               (py_list_mul (py_list_mul [2] (length (obs_wires ob))) 2) in
  let wires := obs_wires ob in
  let vec1_indices := take (num_wires B) ABC in
  rbind (ABC_ARRAY_take wires) (λ obs_in_indices,
  let obs_out_indices := py_slice ABC (num_wires B) (num_wires B + length wires) in
  let obs_indices := obs_in_indices ++ obs_out_indices in
  let vec2_indices :=
    fold_left (λ old_string idx_pair, str_replace idx_pair.1 idx_pair.2 old_string)
              (zip obs_in_indices obs_out_indices) vec1_indices in
  let einsum_str :=
    vec1_indices ++ list_ascii_of_string "," ++ obs_indices
      ++ list_ascii_of_string "," ++ vec2_indices ++ list_ascii_of_string "->" in
  Ok (_einsum B einsum_str (_conj B vec1) mat vec2)).

(** ** The state-and-exception monad of the tape methods

    A raised exception keeps the world as it is at the point of the
    [raise]: writes done before it are not undone. *)

Definition M (A : Type) : Type := World → Result A * World.

Definition ret {A} (a : A) : M A := λ w, (Ok a, w).
Definition raise {A} (e : Exc) : M A := λ w, (Raise e, w).
Definition lift {A} (r : Result A) : M A := λ w, (r, w).
Definition bind {A B} (m : M A) (k : A → M B) : M B :=
  λ w, match m w with
       | (Ok a, w') => k a w'
       | (Raise e, w') => (Raise e, w')
       end.

Notation "'let*' x := m 'in' k" := (bind m (λ x, k))
  (at level 10, x pattern, m at level 100, k at level 200).

Fixpoint mapM {A X} (f : A → M X) (l : list A) : M (list X) :=
  match l with
  | [] => ret []
  | a :: l' => let* b := f a in let* bs := mapM f l' in ret (b :: bs)
  end.

Fixpoint forM_ {A} (l : list A) (f : A → M unit) : M unit :=
  match l with
  | [] => ret tt
  | a :: l' => let* _ := f a in forM_ l' f
  end.

Definition get_self : M QuantumTape := λ w, (Ok (self w), w).
Definition get_device : M Device := λ w, (Ok (device w), w).

Definition put_store (s : list Operation) : M unit :=
  λ w, (Ok tt, mkWorld s (self w) (device w) (trace w)).
Definition put_self (t : QuantumTape) : M unit :=
  λ w, (Ok tt, mkWorld (store w) t (device w) (trace w)).
Definition put_device (d : Device) : M unit :=
  λ w, (Ok tt, mkWorld (store w) (self w) d (trace w)).
Definition spy (e : Event) : M unit :=
  λ w, (Ok tt, mkWorld (store w) (self w) (device w) (trace w ++ [e])).

(** *** Objects *)

(** Reading an attribute of the object behind a reference.  A reference
    that is not in the store does not arise from a tape built by the
    recorder; the model raises [TypeError] there. *)
Definition load (r : nat) : M Operation :=
  λ w, (of_option (store w !! r) TypeError, w).

(** A newly constructed object gets the next free reference. *)
Definition alloc (o : Operation) : M nat :=
  λ w, (Ok (length (store w)),
        mkWorld (store w ++ [o]) (self w) (device w) (trace w)).

Definition update (r : nat) (f : Operation → Operation) : M unit :=
  let* o := load r in
  λ w, (Ok tt, mkWorld (<[r := f o]> (store w)) (self w) (device w) (trace w)).

(** [copy.copy(op)]: a new object with the attributes of [op]. *)
Definition copy (r : nat) : M nat :=
  let* o := load r in alloc o.

Definition toggle_inverse (o : Operation) : Operation :=
  mkOperation (name o) (wires o) (parameters o) (negb (inverse o)) (grad_method o).

(** [op.inv()]: flips the inverse flag of the object in place and returns
    the object. *)
Definition inv (r : nat) : M nat :=
  let* _ := update r toggle_inverse in ret r.

Definition set_parameter (i : nat) (p : R) (o : Operation) : Operation :=
  mkOperation (name o) (wires o) (<[i := p]> (parameters o)) (inverse o) (grad_method o).

(** [l.index(x)] on a list of references: the first position holding the
    same object. *)
Fixpoint py_index (x : nat) (l : list nat) : option nat :=
  match l with
  | [] => None
  | y :: l' => if decide (y = x) then Some 0 else S <$> py_index x l'
  end.

(** ** The base tape: parameter table and execution *)

(** Modelled from the spec: [QuantumTape.get_parameters] lives in tape.py,
    which is not among the sources.  Section 4.2: the ordered list of the
    current values of the trainable parameters, each read from its owning
    operation at its local index. *)
Definition get_parameters : M (list R) :=
  let* t := get_self in
  mapM (λ idx,
          let* info := lift (of_option (_par_info t !! idx) KeyError) in
          let* o := load (par_op info) in
          lift (of_option (parameters o !! par_p_idx info) IndexError))
       (trainable_params t).

(** Modelled from the spec: [QuantumTape.set_parameters] lives in tape.py.
    Section 4.2: writes the values back into the owning operations at their
    local index; a length mismatch fails with a count-mismatch error. *)
Definition set_parameters (params : list R) : M unit :=
  let* t := get_self in
  if decide (length params = length (trainable_params t)) then
    forM_ (zip (trainable_params t) params) (λ idx_p,
      let* info := lift (of_option (_par_info t !! idx_p.1) KeyError) in
      let* o := load (par_op info) in
      if decide (par_p_idx info < length (parameters o)) then
        update (par_op info) (set_parameter (par_p_idx info) idx_p.2)
      else raise IndexError)
  else raise (ValueError "Number of provided parameters invalid.").

(** The circuit a device sees when it is handed this tape. *)
Definition snapshot (ops : list nat) (ms : list MeasurementProcess) : M Circuit :=
  let* vals := mapM load ops in ret (mkCircuit vals ms).

Definition call_device_execute (c : Circuit) : M (list R) :=
  let* d := get_device in
  let* _ := spy (Spy_device_execute c d) in
  let* _ := put_device (device_execute B c d).1 in
  ret (device_execute B c d).2.

(** Modelled from the spec: [QuantumTape.execute_device] lives in tape.py.
    Section 4.5: the given values overwrite the trainable parameters for
    the duration of the call, the device's execute primitive is run on the
    tape, and the previously stored values are put back. *)
Definition execute_device (params : list R) : M (list R) :=
  let* _ := spy (Spy_execute_device params) in
  let* saved_parameters := get_parameters in
  let* _ := set_parameters params in
  let* t := get_self in
  let* c := snapshot (operations t) (measurements t) in
  let* res := call_device_execute c in
  let* _ := set_parameters saved_parameters in
  ret res.

(** Modelled from the spec: [QuantumTape.execute] lives in tape.py
    (section 4.5); without [params] the stored values are used. *)
Definition execute (params : option (list R)) : M (list R) :=
  let* params := match params with
                 | Some p => ret p
                 | None => get_parameters
                 end in
  execute_device params.

(** Modelled from the spec: the [observables] property of the tape lives in
    tape.py.  Section 3: every observable is wrapped by exactly one
    measurement declaration, so the observables are those of the
    measurements, in declared order. *)
Definition observables (t : QuantumTape) : list Observable :=
  map obs (measurements t).

(** ** [ReversibleTape.analytic_pd] *)

Definition set_self_state (s : option Tensor) : M unit :=
  let* t := get_self in
  put_self (mkTape (operations t) (measurements t) (_par_info t)
                   (trainable_params t) s (graph_built t)).

(** A read of [self._state] where an array is needed. *)
Definition read_self_state : M Tensor :=
  let* t := get_self in
  match self_state t with
  | Some s => ret s
  | None => raise TypeError
  end.

Definition supported_gates : list string := ["RX"; "RY"; "RZ"; "Rot"].

(** The loop over [self.measurements] that rejects variances and
    probabilities. *)
Definition check_measurements : M unit :=
  let* t := get_self in
  forM_ (measurements t) (λ m,
    if bool_decide (return_type m = Variance ∨ return_type m = Probability) then
      raise (ValueError (return_type_str B (return_type m)
               +:+ " is not supported with the reversible gradient method"))
    else ret tt).

(** [if self._state is None: ...]: the full tape is run once and the
    pre-rotated state of the device is kept. *)
Definition cache_state (params : list R) : M unit :=
  let* t := get_self in
  match self_state t with
  | None =>
      let* _ := execute_device params in
      let* d := get_device in
      set_self_state (Some (_pre_rotated_state d))
  | Some _ => ret tt
  end.

(** The operations of [diff_circuit], and the multiplier of the generator. *)
Definition diff_circuit_ops (op p_idx : nat) : M (list nat * R) :=
  let* o := load op in
  let wires := wires o in
  let* t := get_self in
  let* op_idx := lift (of_option (py_index op (operations t))
                         (ValueError "operation is not in list")) in
  let between_ops := py_slice_from (operations t) (op_idx + 1) in
  let* gen_between :=
    if decide (name o = "Rot") then
      let* decomp := mapM alloc (Rot_decomposition B (parameters o) wires) in
      let* d := lift (of_option (decomp !! p_idx) IndexError) in
      let* od := load d in
      ret (generator B (name od), py_slice_from decomp (p_idx + 1) ++ between_ops)
    else
      ret (generator B (name o), between_ops) in
  let generator := gen_between.1.1 in
  let multiplier := gen_between.1.2 in
  let between_ops := gen_between.2 in
  let* generator :=
    match generator with
    | Some g => alloc (mkOperation g wires [] false None)
    | None => raise TypeError
    end in
  let* inverted := mapM (λ r, let* c := copy r in inv c) (reverse between_ops) in
  ret (inverted ++ [generator] ++ between_ops, multiplier).

(** Seeding the device, running [diff_circuit], and contracting with each
    observable. *)
Definition replay (diff_ops : list nat) (multiplier : R) : M (list R) :=
  let* state := read_self_state in
  let* d := get_device in
  let* _ := put_device (mkDevice state (_pre_rotated_state d)) in
  let* c := snapshot diff_ops [] in
  let* _ := call_device_execute c in
  let* d := get_device in
  let dstate := _pre_rotated_state d in
  let* t := get_self in
  let* matrix_elems :=
    mapM (λ ob, let* state := read_self_state in
                lift (_matrix_elem dstate ob state)) (observables t) in
  let* state := read_self_state in
  let* d := get_device in
  let* _ := put_device (mkDevice (_state d) state) in
  ret (map (rmul B (rmul B (two B) multiplier)) (map (imag B) matrix_elems)).

Definition analytic_pd (idx : nat) (params : list R) : M (list R) :=
  let* t := get_self in
  let* t_idx := lift (of_option (trainable_params t !! idx) IndexError) in
  let* info := lift (of_option (_par_info t !! t_idx) KeyError) in
  let op := par_op info in
  let p_idx := par_p_idx info in
  let* _ := check_measurements in
  let* o := load op in
  if bool_decide (name o ∉ supported_gates) then
    raise (ValueError ("The " +:+ name o +:+ " gate is not currently supported with the "
                         +:+ "reversible gradient method."))
  else
    let* _ := cache_state params in
    let* _ := set_parameters params in
    let* diff := diff_circuit_ops op p_idx in
    replay diff.1 diff.2.

(** ** Gradient-method inference *)

Definition intersects (a b : list nat) : bool :=
  existsb (λ x, bool_decide (x ∈ b)) a.

(** Modelled from the spec: the dependency graph ([NewCircuitGraph]) is not
    among the sources.  Section 4.3: a directed path connects an operation
    to an observable through shared wires and operation ordering.  [reach]
    collects the wires that the operations queued later connect to the
    wires of the operation. *)
Fixpoint reach (ws : list nat) (later : list Operation) : list nat :=
  match later with
  | [] => ws
  | o :: later' =>
      if intersects ws (wires o) then reach (ws ++ wires o) later'
      else reach ws later'
  end.

Definition has_path (o : Operation) (later : list Operation) (ob : Observable) : bool :=
  intersects (reach (wires o) later) (obs_wires ob).

Definition set_graph_built : M unit :=
  let* t := get_self in
  put_self (mkTape (operations t) (measurements t) (_par_info t)
                   (trainable_params t) (self_state t) true).

(** Modelled from the spec: [QuantumTape._grad_method] lives in tape.py.
    Sections 3 and 4.3 give the tags, the reachability rule and the
    default that is used when the graph is not consulted; the keyword
    arguments [use_graph] and [default_method] are those that the override
    in rev.py passes on; the tag [None] for an operation that cannot be
    differentiated and the base default ["F"] are those asserted by
    [TestGradMethod]. *)
Definition QuantumTape__grad_method (idx : nat) (use_graph : bool)
    (default_method : string) : M (option string) :=
  let* t := get_self in
  let* info := lift (of_option (_par_info t !! idx) KeyError) in
  let* o := load (par_op info) in
  match grad_method o with
  | None => ret None
  | Some _ =>
      if graph_built t || use_graph then
        let* _ := set_graph_built in
        let* op_idx := lift (of_option (py_index (par_op info) (operations t))
                               (ValueError "operation is not in list")) in
        let* later := mapM load (py_slice_from (operations t) (op_idx + 1)) in
        let best := map (λ ob, if has_path o later ob then default_method else "0")
                        (observables t) in
        if forallb (λ k, bool_decide (k = "0")) best then ret (Some "0")
        else ret (Some default_method)
      else ret (Some default_method)
  end.

(** [ReversibleTape._grad_method]; its keyword defaults are [use_graph=True]
    and [default_method="A"]. *)
Definition _grad_method (idx : nat) (use_graph : bool) (default_method : string)
    : M (option string) :=
  QuantumTape__grad_method idx use_graph default_method.

(** ** The Jacobian *)

Record Options := mkOptions {
  method : string;
  order : nat
}.

(** A column of the Jacobian; [None] stands for an all-zero column. *)
Definition Column : Type := option (list R).

Definition show_indices (l : list nat) : string :=
  "{" +:+ String.concat ", " (map pretty l) +:+ "}".

(** Modelled from the spec: [QuantumTape.numeric_pd] lives in tape.py.
    Section 4.6: first order uses the shared baseline and one
    forward-shifted evaluation, second order two evaluations; any other
    order is an error. *)
Definition numeric_pd (idx : nat) (params : list R) (y0 : option (list R))
    (ord : nat) : M (list R) :=
  if decide (ord = 1) then
    let* y0 := match y0 with Some y => ret y | None => execute_device params end in
    let* y := execute_device (fd_forward B params idx) in
    ret (fd_quotient B y y0)
  else if decide (ord = 2) then
    let* y1 := execute_device (fd_forward B params idx) in
    let* y2 := execute_device (fd_backward B params idx) in
    ret (fd_quotient B y1 y2)
  else raise (ValueError "Order must be 1 or 2.").

(** Modelled from the spec: [QuantumTape.device_pd] lives in tape.py.
    Section 4.6: the device's native Jacobian primitive is used. *)
Definition device_pd : M (list Column) :=
  let* t := get_self in
  let* c := snapshot (operations t) (measurements t) in
  let* d := get_device in
  let* _ := spy (Spy_device_jacobian c d) in
  let* _ := put_device (device_jacobian B c d).1 in
  ret (map Some (device_jacobian B c d).2).

(** The positions of the entries of [l] that satisfy [P]. *)
Definition positions {A} (P : A → bool) (l : list A) : list nat :=
  map fst (filter (λ ix, P ix.2 = true) (imap pair l)).

Fixpoint jacobian_columns (pd : nat → list R → M (list R)) (opts : Options)
    (params : list R) (y0 : option (list R)) (l : nat) (diff_methods : list string)
    : M (list Column) :=
  match diff_methods with
  | [] => ret []
  | param_method :: rest =>
      let* g :=
        if decide (param_method = "0") then ret None
        else if bool_decide (method opts = "numeric"
                             ∨ (method opts = "best" ∧ param_method = "F")) then
          let* g := numeric_pd l params y0 (order opts) in ret (Some g)
        else
          let* g := pd l params in ret (Some g) in
      let* gs := jacobian_columns pd opts params y0 (S l) rest in
      ret (g :: gs)
  end.

(** Modelled from the spec: the body of [QuantumTape.jacobian], which lives
    in tape.py, at given parameter values.  Section 4.6, with the error
    messages that [TestJacobian] matches.  The per-parameter tag and the
    analytic routine are methods of the class of the tape, so they are
    arguments here. *)
Definition jacobian_at (grad : nat → M (option string))
    (pd : nat → list R → M (list R))
    (params : list R) (opts : Options) : M (list Column) :=
  let* t := get_self in
  if decide (trainable_params t = []) then ret []
  else if decide (method opts = "device") then device_pd
  else
    let* tags := mapM grad (trainable_params t) in
    let nondiff := positions (λ tag : option string, bool_decide (tag = None)) tags in
    if negb (bool_decide (nondiff = [])) then
      raise (ValueError ("Cannot differentiate with respect to parameter(s) "
                           +:+ show_indices nondiff))
    else
      let diff_methods := omap id tags in
      let numeric := positions (λ tag, bool_decide (tag = "F")) diff_methods in
      if bool_decide (method opts = "analytic") && negb (bool_decide (numeric = [])) then
        raise (ValueError ("The analytic gradient method cannot be used with the "
                             +:+ "argument(s) " +:+ show_indices numeric))
      else
        let* y0 :=
          if bool_decide (method opts = "numeric" ∨ "F" ∈ diff_methods)
             && bool_decide (order opts = 1) then
            let* y := execute_device params in ret (Some y)
          else ret None in
        jacobian_columns pd opts params y0 0 diff_methods.

(** Modelled from the spec: [QuantumTape.jacobian] lives in tape.py.
    Sections 4.5 and 4.6: an unknown method is an error; without explicit
    [params] the stored values are used.  The values are handed on to the
    partial-derivative routines: the method itself writes nothing into the
    operations, and the stored values are overwritten and put back where
    the tape is run, in [execute_device]. *)
Definition QuantumTape_jacobian (grad : nat → M (option string))
    (pd : nat → list R → M (list R))
    (params : option (list R)) (opts : Options) : M (list Column) :=
  if bool_decide (method opts ∉ ["best"; "numeric"; "analytic"; "device"]) then
    raise (ValueError "Unknown gradient method")
  else
    let* params := match params with
                   | Some p => ret p
                   | None => get_parameters
                   end in
    jacobian_at grad pd params opts.

(** The analytic routine of the base tape is not implemented. *)
Definition QuantumTape_analytic_pd (idx : nat) (params : list R) : M (list R) :=
  raise NotImplementedError.

(** [ReversibleTape.jacobian]. *)
Definition jacobian (params : option (list R)) (opts : Options) : M (list Column) :=
  let* _ := set_self_state None in
  QuantumTape_jacobian (λ idx, _grad_method idx true "A") analytic_pd params opts.

End Tape.

Notation "'let*' x := m 'in' k" := (bind m (λ x, k))
  (at level 10, x pattern, m at level 100, k at level 200).

Arguments Operation : clear implicits.
Arguments Observable : clear implicits.
Arguments MeasurementProcess : clear implicits.
Arguments Circuit : clear implicits.
Arguments Device : clear implicits.
Arguments QuantumTape : clear implicits.
Arguments Event : clear implicits.
Arguments World : clear implicits.
Arguments Backend : clear implicits.
Arguments M : clear implicits.

(** ** A small backend on which the tape can be run

    Parameters are integers, device arrays are kept symbolic (what was
    applied to what), and a contraction is the record of its arguments. *)

Module Toy.

Inductive tensor :=
| Ket0
| Evolved (ops : list (Operation Z)) (from : tensor)
| Matrix (label : string)
| Reshaped (t : tensor) (shape : list nat)
| Conj (t : tensor).

Inductive scalar :=
| Contraction (subscripts : list ascii) (a b c : tensor).

Definition gate (n : string) (ws : list nat) (ps : list Z) : Operation Z :=
  mkOperation n ws ps false (Some "A").

Definition backend (n : nat) : Backend Z scalar tensor := {|
  num_wires := n;
  device_execute c d :=
    (mkDevice (Evolved (circ_ops c) (_state d)) (Evolved (circ_ops c) (_state d)),
     map (λ _, 0%Z) (circ_measurements c));
  device_jacobian c d := (d, []);
  _reshape := Reshaped;
  _conj := Conj;
  _einsum := Contraction;
  imag '(Contraction s _ _ _) := Z.of_nat (length s);
  two := 2%Z;
  zero := 0%Z;
  rmul := Z.mul;
  return_type_str r :=
    match r with
    | Expectation => "expval" | Variance => "var"
    | Probability => "probs" | Sample => "sample"
    end;
  generator n :=
    if decide (n = "RX") then (Some "PauliX", (-1)%Z)
    else if decide (n = "RY") then (Some "PauliY", (-1)%Z)
    else if decide (n = "RZ") then (Some "PauliZ", (-1)%Z)
    else (None, 1%Z);
  Rot_decomposition ps ws :=
    match ps with
    | [phi; theta; omega] => [gate "RZ" ws [phi]; gate "RY" ws [theta]; gate "RZ" ws [omega]]
    | _ => []
    end;
  fd_forward ps i := alter (Z.add 1) i ps;
  fd_backward ps i := alter (Z.add (-1)) i ps;
  fd_quotient y1 y2 := zip_with Z.sub y1 y2
|}.

Definition expval (label : string) (ws : list nat) : MeasurementProcess tensor :=
  mkMeasurement Expectation (mkObservable label ws (Matrix label)).

Definition device0 : Device tensor := mkDevice Ket0 Ket0.

(** RX(x) on wire 0, RY(y) on wire 1, CNOT(0, 1), expval(Z0 X1). *)
Definition world1 : World Z tensor := {|
  store := [gate "RX" [0] [543%Z]; gate "RY" [1] [(-654)%Z]; gate "CNOT" [0; 1] []];
  self := mkTape [0; 1; 2] [expval "ZX" [0; 1]]
            (<[0 := mkParInfo 0 0]> (<[1 := mkParInfo 1 0]> ∅)) [0; 1] None false;
  device := device0;
  trace := []
|}.


Definition var (label : string) (ws : list nat) : MeasurementProcess tensor :=
  mkMeasurement Variance (mkObservable label ws (Matrix label)).

Definition probs (ws : list nat) : MeasurementProcess tensor :=
  mkMeasurement Probability (mkObservable "Identity" ws (Matrix "Identity")).

(** RX(x) on wire 0, var(Z0). *)
Definition world_var : World Z tensor := {|
  store := [gate "RX" [0] [543%Z]];
  self := mkTape [0] [var "Z" [0]] (<[0 := mkParInfo 0 0]> ∅) [0] None false;
  device := device0;
  trace := []
|}.

(** CRX(x) on wires 0 and 1, expval(Z0): a gate that the reversible
    method does not differentiate. *)
Definition world_crx : World Z tensor := {|
  store := [gate "CRX" [0; 1] [543%Z]];
  self := mkTape [0] [expval "Z" [0]] (<[0 := mkParInfo 0 0]> ∅) [0] None false;
  device := device0;
  trace := []
|}.

(** CRX(x) on wires 0 and 1, expval(Z0), var(Z1): an unsupported gate and,
    in the second place, an unsupported measurement. *)
Definition world_crx_var : World Z tensor := {|
  store := [gate "CRX" [0; 1] [543%Z]];
  self := mkTape [0] [expval "Z" [0]; var "Z" [1]] (<[0 := mkParInfo 0 0]> ∅) [0]
            None false;
  device := device0;
  trace := []
|}.

(** The tape of [TestGradMethod.test_independent]: RX(0.543) on wire 0,
    RY(-0.654) on wire 1, expval(PauliY(0)). *)
Definition world_independent : World Z tensor := {|
  store := [gate "RX" [0] [543%Z]; gate "RY" [1] [(-654)%Z]];
  self := mkTape [0; 1] [expval "PauliY" [0]]
            (<[0 := mkParInfo 0 0]> (<[1 := mkParInfo 1 0]> ∅)) [0; 1] None false;
  device := device0;
  trace := []
|}.

(** The tape of [TestGradMethod.test_non_differentiable]:
    QubitStateVector(psi) on wires 0 and 1, RX(0.543) on wire 0, RY(-0.654)
    on wire 1, CNOT(0, 1), probs(wires 0 and 1).  The state preparation has
    no gradient recipe; its array argument is kept as one opaque value. *)
Definition world_non_differentiable : World Z tensor := {|
  store := [mkOperation "QubitStateVector" [0; 1] [0%Z] false None;
            gate "RX" [0] [543%Z]; gate "RY" [1] [(-654)%Z]; gate "CNOT" [0; 1] []];
  self := mkTape [0; 1; 2; 3] [probs [0; 1]]
            (<[0 := mkParInfo 0 0]> (<[1 := mkParInfo 1 0]> (<[2 := mkParInfo 2 0]> ∅)))
            [0; 1; 2] None false;
  device := device0;
  trace := []
|}.

End Toy.

(** ** Notions used in the statements *)

(** Replacing one letter after the other acts letter by letter. *)
Definition subst_letter (pairs : list (ascii * ascii)) (c : ascii) : ascii :=
  fold_left (λ c p, if decide (c = p.1) then p.2 else c) pairs c.

Section Notions.

Context {R C Tensor : Type} (B : Backend R C Tensor).
#[local] Abbreviation World := (World R Tensor).
#[local] Abbreviation M := (M R Tensor).

(** A relation between the world before and the world after that a
    computation maintains whatever its outcome. *)
Definition preserves {A} (Rel : World → World → Prop) (m : M A) : Prop :=
  ∀ w, Rel w (m w).2.

(** What no tape method touches: the queue, the measurements and the
    parameter table of the tape stay as they are, and an object that
    exists keeps its name, its wires, its inverse flag and the number of
    its parameters.  Only parameter values, the cached state, the device
    and newly made objects change. *)
Definition same_object (o o' : Operation R) : Prop :=
  name o' = name o ∧ wires o' = wires o ∧ inverse o' = inverse o
  ∧ grad_method o' = grad_method o
  ∧ length (parameters o') = length (parameters o).

Record frame (w w' : World) : Prop := mkFrame {
  frame_operations : operations (self w') = operations (self w);
  frame_measurements : measurements (self w') = measurements (self w);
  frame_par_info : _par_info (self w') = _par_info (self w);
  frame_trainable : trainable_params (self w') = trainable_params (self w);
  frame_store : ∀ r o, store w !! r = Some o →
                       ∃ o', store w' !! r = Some o' ∧ same_object o o'
}.

(** The tape, the device and the spies are left alone. *)
Definition calm (w w' : World) : Prop :=
  self w' = self w ∧ device w' = device w ∧ trace w' = trace w.

(** [refs] are references to the objects [vals], in this order. *)
Definition points_to (st : list (Operation R)) (refs : list nat)
    (vals : list (Operation R)) : Prop :=
  Forall2 (λ r v, st !! r = Some v) refs vals.

Definition unsupported_measurement (m : MeasurementProcess Tensor) : Prop :=
  return_type m = Variance ∨ return_type m = Probability.

Definition measurement_error (m : MeasurementProcess Tensor) : Exc :=
  ValueError (return_type_str B (return_type m)
                +:+ " is not supported with the reversible gradient method").

Definition gate_error (o : Operation R) : Exc :=
  ValueError ("The " +:+ name o +:+ " gate is not currently supported with the "
                +:+ "reversible gradient method.").

(** The steps of the decomposition of a Rot that come after the one that
    carries the parameter; empty for the other gates. *)
Definition decomposition_rest (o : Operation R) (p_idx : nat) : list (Operation R) :=
  if decide (name o = "Rot") then
    py_slice_from (Rot_decomposition B (parameters o) (wires o)) (p_idx + 1)
  else [].

(** The operation whose generator is differentiated: the step of the
    decomposition of a Rot that carries the parameter, the operation
    itself for the other gates. *)
Definition generator_source (o : Operation R) (p_idx : nat) : option (Operation R) :=
  if decide (name o = "Rot") then
    Rot_decomposition B (parameters o) (wires o) !! p_idx
  else Some o.

(** The bare generator as an operation on the wires of the owner. *)
Definition generator_op (g : string) (o : Operation R) : Operation R :=
  mkOperation g (wires o) [] false None.

(** Inverses of the suffix in reverse order, the generator, the suffix. *)
Definition replay_ops (suffix : list (Operation R)) (G : Operation R)
    : list (Operation R) :=
  map toggle_inverse (reverse suffix) ++ [G] ++ suffix.

(** The place where a parameter of the tape is stored: the owning object
    and the position in it; and the value that is stored there. *)
Definition slot_of (t : QuantumTape Tensor) (idx : nat) : option (nat * nat) :=
  (λ info, (par_op info, par_p_idx info)) <$> _par_info t !! idx.

Definition read_slot (st : list (Operation R)) (sl : nat * nat) : option R :=
  st !! sl.1 ≫= λ o, parameters o !! sl.2.

Definition stored_parameter (t : QuantumTape Tensor) (st : list (Operation R))
    (idx : nat) : option R :=
  slot_of t idx ≫= read_slot st.

(** The number of calls of [execute_device] that the spy has seen: the
    number of times the full tape was run. *)
Definition is_execute_device (e : Event R Tensor) : bool :=
  match e with Spy_execute_device _ => true | _ => false end.

Definition executions (w : World) : nat :=
  length (List.filter is_execute_device (trace w)).

(** No run of the full tape, and the cache is left alone. *)
Definition quiet (w w' : World) : Prop :=
  executions w' = executions w ∧ self_state (self w') = self_state (self w).

(** The same, provided that there is a cached state. *)
Definition cached_quiet (w w' : World) : Prop :=
  is_Some (self_state (self w)) → quiet w w'.

(** The cache changes only together with a run of the full tape. *)
Definition refreshed (w w' : World) : Prop :=
  executions w ≤ executions w'
  ∧ (self_state (self w') = self_state (self w) ∨ executions w < executions w').

(** An empty cache allows for one more run of the full tape. *)
Definition budget (w : World) : nat :=
  executions w + (if self_state (self w) is Some _ then 0 else 1).

(** A computation that stays within the budget, and whose result
    satisfies [Q]. *)
Definition bounded {A} (Q : A → Prop) (m : M A) : Prop :=
  ∀ w, match m w with
       | (Ok a, w') => budget w' ≤ budget w ∧ Q a
       | (Raise _, w') => executions w' ≤ budget w
       end.

(** The tag that the inference gives to a parameter owned by [o], when
    [later] are the operations queued after [o], [consult] tells whether
    the graph is consulted, and [default_method] is the tag for a
    parameter that an observable depends on. *)
Definition inferred_tag (o : Operation R) (later : list (Operation R))
    (obs : list (Observable Tensor)) (consult : bool) (default_method : string)
    : option string :=
  match grad_method o with
  | None => None
  | Some _ =>
      if consult && forallb (λ ob, negb (has_path o later ob)) obs
      then Some "0" else Some default_method
  end.

(** Modelled from the spec: the three rules of section 4.3 in the words
    of the spec, for comparison with what [_grad_method] returns: ["F"]
    for an operation without an analytic rule, else ["0"] without a path
    to an observable, else ["A"]. *)
Definition rules_of_section_4_3 (o : Operation R) (later : list (Operation R))
    (obs : list (Observable Tensor)) : string :=
  if bool_decide (grad_method o = Some "A") then
    if forallb (λ ob, negb (has_path o later ob)) obs then "0" else "A"
  else "F".

(** The body of the loop of [get_parameters] and of [set_parameters]. *)
Definition get_body (t : QuantumTape Tensor) : nat → M R :=
  λ idx,
    let* info := lift (of_option (_par_info t !! idx) KeyError) in
    let* o := load (par_op info) in
    lift (of_option (parameters o !! par_p_idx info) IndexError).

Definition set_body (t : QuantumTape Tensor) : nat * R → M unit :=
  λ idx_p,
    let* info := lift (of_option (_par_info t !! idx_p.1) KeyError) in
    let* o := load (par_op info) in
    if decide (par_p_idx info < length (parameters o)) then
      update (par_op info) (set_parameter (par_p_idx info) idx_p.2)
    else raise IndexError.

(** The world in which [self._state] has been set to [None]. *)
Definition cleared (w : World) : World :=
  mkWorld (store w)
          (mkTape (operations (self w)) (measurements (self w)) (_par_info (self w))
                  (trainable_params (self w)) None (graph_built (self w)))
          (device w) (trace w).

(** What a call of [analytic_pd] that returns has done.  [o] is the owning
    operation and [queued_after] are the operations queued after it, as
    they are when the call returns; [state] is the cached pre-measurement
    state; [seeded] is the device on which the replay circuit is run and
    [after] the device that this run leaves. *)
Inductive analytic_run (idx : nat) (params : list R) (w w' : World) (res : list R)
    : Prop :=
| AnalyticRun (t_idx : nat) (info : ParInfo) (o : Operation R) (op_idx : nat)
    (queued_after : list (Operation R)) (source : Operation R) (g : string)
    (multiplier : R) (state : Tensor) (before : list (Event R Tensor))
    (seeded : Device Tensor) (elems : list C)
    (run_trainable : trainable_params (self w) !! idx = Some t_idx)
    (run_info : _par_info (self w) !! t_idx = Some info)
    (run_measurements :
       Forall (λ m, ¬ unsupported_measurement m) (measurements (self w)))
    (run_owner : store w' !! par_op info = Some o)
    (run_name : name o ∈ supported_gates)
    (run_index : py_index (par_op info) (operations (self w)) = Some op_idx)
    (run_after :
       points_to (store w') (py_slice_from (operations (self w)) (op_idx + 1))
                 queued_after)
    (run_source : generator_source o (par_p_idx info) = Some source)
    (run_generator : generator B (name source) = (Some g, multiplier))
    (run_state : self_state (self w') = Some state)
    (run_cache :
       match self_state (self w) with
       | Some s => state = s ∧ before = trace w
       | None =>
           ∃ c, before = trace w ++ [Spy_execute_device params;
                                     Spy_device_execute c (device w)]
                ∧ state = _pre_rotated_state (device_execute B c (device w)).1
       end)
    (run_seed : _state seeded = state)
    (run_trace :
       trace w' = before ++
         [Spy_device_execute
            (mkCircuit (replay_ops (decomposition_rest o (par_p_idx info) ++ queued_after)
                                   (generator_op g o)) [])
            seeded])
    (run_device :
       device w' =
       mkDevice
         (_state (device_execute B
            (mkCircuit (replay_ops (decomposition_rest o (par_p_idx info) ++ queued_after)
                                   (generator_op g o)) []) seeded).1)
         state)
    (run_elems :
       rmapM (λ ob, _matrix_elem B
                      (_pre_rotated_state (device_execute B
                         (mkCircuit
                            (replay_ops (decomposition_rest o (par_p_idx info) ++ queued_after)
                                        (generator_op g o)) []) seeded).1)
                      ob state)
             (observables (self w)) = Ok elems)
    (run_result :
       res = map (rmul B (rmul B (two B) multiplier)) (map (imag B) elems)).

End Notions.

Arguments generator_op : simpl never.
Arguments replay_ops : simpl never.

(** * Properties *)

(** ** The index strings of [_matrix_elem] *)

Section Subscripts.

Lemma ABC_length : length ABC = 52.
Proof. reflexivity. Qed.



Lemma ABC_ARRAY_take_ok (idx : list nat) :
  Forall (λ i, i < 52) idx →
  ∃ s, ABC_ARRAY_take idx = Ok s ∧ length s = length idx
       ∧ ∀ j i, idx !! j = Some i → s !! j = ABC !! i.
Proof.
  unfold ABC_ARRAY_take. induction 1 as [|i idx Hi _ IH]; simpl.
  - exists []. split_and!; [done..|]. intros j i Hj. by rewrite lookup_nil in Hj.
  - destruct IH as (s & -> & Hlen & Hs).
    destruct (lookup_lt_is_Some_2 ABC i) as [c Hc]; [by rewrite ABC_length|].
    rewrite Hc. simpl. exists (c :: s). split_and!; [done|simpl; lia|].
    intros [|j] i'; simpl; [naive_solver|apply Hs].
Qed.

Lemma fold_str_replace pairs s :
  fold_left (λ old_string idx_pair, str_replace idx_pair.1 idx_pair.2 old_string) pairs s
  = map (subst_letter pairs) s.
Proof.
  revert s. induction pairs as [|p pairs IH]; intros s; simpl.
  - by rewrite map_id.
  - rewrite IH. unfold str_replace. rewrite map_map. done.
Qed.



End Subscripts.

Section MatrixElem.

Context {R C Tensor : Type} (B : Backend R C Tensor).

Lemma py_list_mul_shape (k : nat) :
  py_list_mul (py_list_mul [2] k) 2 = replicate (2 * k) 2.
Proof.
  unfold py_list_mul. simpl. rewrite app_nil_r.
  assert (concat (replicate k [2]) = replicate k 2) as ->.
  { induction k as [|k IH]; simpl; [done|by rewrite IH]. }
  rewrite <- replicate_add. f_equal. lia.
Qed.


End MatrixElem.

(** ** Reasoning in the monad *)

Section Monad.

Context {R C Tensor : Type}.
#[local] Abbreviation World := (World R Tensor).
#[local] Abbreviation M := (M R Tensor).

Lemma bind_ok {A X} (m : M A) (k : A → M X) w b w' :
  bind m k w = (Ok b, w') ↔ ∃ a w1, m w = (Ok a, w1) ∧ k a w1 = (Ok b, w').
Proof.
  unfold bind. split.
  - destruct (m w) as [[a|e] w1]; [eauto|discriminate].
  - intros (a & w1 & -> & Hk). done.
Qed.

Lemma lift_ok {A} (r : Result A) w (a : A) w' :
  (lift r : M A) w = (Ok a, w') ↔ r = Ok a ∧ w' = w.
Proof. unfold lift. split; [by intros [= -> ->]|by intros [-> ->]]. Qed.

Lemma of_option_ok {A} (o : option A) e a : of_option o e = Ok a ↔ o = Some a.
Proof. destruct o; simpl; naive_solver. Qed.

Section Preserves.

Context (Rel : World → World → Prop) `{!PreOrder Rel}.

Lemma preserves_ret {A} (a : A) : preserves Rel (ret a).
Proof. intros w. simpl. reflexivity. Qed.

Lemma preserves_raise {A} e : preserves Rel (@raise R Tensor A e).
Proof. intros w. simpl. reflexivity. Qed.

Lemma preserves_lift {A} (r : Result A) : preserves Rel (lift r).
Proof. intros w. simpl. reflexivity. Qed.

Lemma preserves_get_self : preserves Rel get_self.
Proof. intros w. simpl. reflexivity. Qed.

Lemma preserves_get_device : preserves Rel get_device.
Proof. intros w. simpl. reflexivity. Qed.

Lemma preserves_load r : preserves Rel (load r).
Proof. intros w. simpl. reflexivity. Qed.

Lemma preserves_bind {A X} (m : M A) (k : A → M X) :
  preserves Rel m → (∀ a, preserves Rel (k a)) → preserves Rel (bind m k).
Proof.
  intros Hm Hk w. unfold bind. specialize (Hm w).
  destruct (m w) as [[a|e] w1]; simpl in *; [|done].
  etrans; [exact Hm|apply Hk].
Qed.

Lemma preserves_mapM {A X} (f : A → M X) l :
  (∀ a, preserves Rel (f a)) → preserves Rel (mapM f l).
Proof.
  intros Hf. induction l as [|a l IH]; simpl.
  - apply preserves_ret.
  - apply preserves_bind; [apply Hf|]. intros b.
    apply preserves_bind; [apply IH|]. intros bs. apply preserves_ret.
Qed.

Lemma preserves_forM_ {A} (f : A → M unit) l :
  (∀ a, preserves Rel (f a)) → preserves Rel (forM_ l f).
Proof.
  intros Hf. induction l as [|a l IH]; simpl.
  - apply preserves_ret.
  - apply preserves_bind; [apply Hf|]. intros _. apply IH.
Qed.

Lemma preserves_read_self_state : preserves Rel read_self_state.
Proof.
  apply preserves_bind; [apply preserves_get_self|]. intros t.
  destruct (self_state t); [apply preserves_ret|apply preserves_raise].
Qed.

End Preserves.

End Monad.

(** ** What no tape method touches *)

Section Frame.

Context {R C Tensor : Type} (B : Backend R C Tensor).
#[local] Abbreviation World := (World R Tensor).
#[local] Abbreviation M := (M R Tensor).
#[local] Abbreviation frame := (@frame R Tensor).
#[local] Abbreviation same_object := (@same_object R).

Lemma same_object_refl (o : Operation R) : same_object o o.
Proof. by repeat split. Qed.

Lemma same_object_trans (o1 o2 o3 : Operation R) :
  same_object o1 o2 → same_object o2 o3 → same_object o1 o3.
Proof. unfold same_object. intros (?&?&?&?&?) (?&?&?&?&?). split_and!; congruence. Qed.

#[export] Instance frame_preorder : PreOrder frame.
Proof.
  split.
  - intros w. split; try done. intros r o Hr. exists o. split; [done|apply same_object_refl].
  - intros w1 w2 w3 [] []. split; try congruence.
    intros r o Hr. destruct (frame_store0 r o Hr) as (o2 & Hr2 & Ho2).
    destruct (frame_store1 r o2 Hr2) as (o3 & Hr3 & Ho3).
    exists o3. split; [done|by eapply same_object_trans].
Qed.

Lemma frame_same_store (w w' : World) :
  self w' = self w → store w' = store w → frame w w'.
Proof.
  intros Hs Hst. split; rewrite ?Hs; try done.
  intros r o Hr. exists o. rewrite Hst. split; [done|apply same_object_refl].
Qed.

Lemma frame_put_device d : preserves frame (put_device d).
Proof. intros w. by apply frame_same_store. Qed.

Lemma frame_spy e : preserves frame (spy e).
Proof. intros w. by apply frame_same_store. Qed.

Lemma frame_set_self_state s : preserves frame (set_self_state s).
Proof.
  intros w. split; try done. intros r o Hr. exists o. split; [done|apply same_object_refl].
Qed.

Lemma frame_set_graph_built : preserves frame set_graph_built.
Proof.
  intros w. split; try done. intros r o Hr. exists o. split; [done|apply same_object_refl].
Qed.

Lemma frame_alloc o : preserves frame (alloc o).
Proof.
  intros w. split; try done. intros r o' Hr. exists o'. simpl.
  split; [by apply lookup_app_l_Some|apply same_object_refl].
Qed.

Lemma frame_update r f :
  (∀ o, same_object o (f o)) → preserves frame (update r f).
Proof.
  intros Hf w. unfold update, bind, load. simpl.
  destruct (store w !! r) as [o|] eqn:Hr; simpl; [|reflexivity].
  split; try done. simpl. intros r' o' Hr'.
  destruct (decide (r' = r)) as [->|Hne].
  - exists (f o). rewrite list_lookup_insert_eq by (by eapply lookup_lt_Some).
    split; [done|]. by simplify_eq.
  - exists o'. rewrite list_lookup_insert_ne by done.
    split; [done|apply same_object_refl].
Qed.

Lemma same_object_set_parameter i p (o : Operation R) :
  same_object o (set_parameter i p o).
Proof. repeat split. simpl. apply length_insert. Qed.

(** [copy(op).inv()] flips the flag of the copy, which is a new object. *)
Lemma copy_inv_run r (w : World) :
  (let* c := copy r in inv c) w =
  match store w !! r with
  | Some o => (Ok (length (store w)),
               mkWorld (store w ++ [toggle_inverse o]) (self w) (device w) (trace w))
  | None => (Raise TypeError, w)
  end.
Proof.
  unfold bind, copy, inv, update, bind, load, alloc, ret. simpl.
  destruct (store w !! r) as [o|] eqn:Hr; simpl; [|done].
  rewrite list_lookup_middle by done. simpl.
  rewrite insert_app_r_alt, Nat.sub_diag by done. done.
Qed.

Lemma frame_copy_inv r : preserves frame (let* c := copy r in inv c).
Proof.
  intros w. rewrite copy_inv_run. destruct (store w !! r) as [o|]; [|reflexivity].
  split; try done. simpl. intros r' o' Hr'. exists o'.
  split; [by apply lookup_app_l_Some|apply same_object_refl].
Qed.

End Frame.

Ltac frame_step :=
  first
    [ match goal with H : _ |- preserves _ _ => apply H end
    | apply preserves_ret; tc_solve
    | apply preserves_raise; tc_solve
    | apply preserves_lift; tc_solve
    | apply preserves_get_self; tc_solve
    | apply preserves_get_device; tc_solve
    | apply preserves_load; tc_solve
    | apply preserves_read_self_state; tc_solve
    | apply frame_put_device
    | apply frame_spy
    | apply frame_set_self_state
    | apply frame_set_graph_built
    | apply frame_alloc
    | apply frame_copy_inv
    | apply frame_update; intros ?; apply same_object_set_parameter
    | apply preserves_mapM; [tc_solve|intros ?]
    | apply preserves_forM_; [tc_solve|intros ?]
    | apply preserves_bind; [tc_solve| |intros ?]
    | progress case_match ].

Ltac frame_auto := repeat frame_step.

Section FrameMethods.

Context {R C Tensor : Type} (B : Backend R C Tensor).
#[local] Abbreviation M := (M R Tensor).
#[local] Abbreviation frame := (@frame R Tensor).

Lemma frame_get_parameters : preserves frame (get_parameters (Tensor:=Tensor) (R:=R)).
Proof. unfold get_parameters. frame_auto. Qed.

Lemma frame_set_parameters (params : list R) :
  preserves frame (set_parameters (Tensor:=Tensor) params).
Proof. unfold set_parameters. frame_auto. Qed.

Lemma frame_snapshot ops ms : preserves frame (snapshot (R:=R) (Tensor:=Tensor) ops ms).
Proof. unfold snapshot. frame_auto. Qed.

Lemma frame_call_device_execute c : preserves frame (call_device_execute B c).
Proof. unfold call_device_execute. frame_auto. Qed.

Lemma frame_execute_device (params : list R) : preserves frame (execute_device B params).
Proof.
  unfold execute_device.
  pose proof frame_get_parameters. pose proof frame_set_parameters.
  pose proof frame_snapshot. pose proof frame_call_device_execute.
  frame_auto.
Qed.

Lemma frame_execute (params : option (list R)) : preserves frame (execute B params).
Proof.
  unfold execute. pose proof frame_get_parameters. pose proof frame_execute_device.
  frame_auto.
Qed.

Lemma frame_check_measurements : preserves frame (check_measurements B).
Proof. unfold check_measurements. frame_auto. Qed.

Lemma frame_cache_state (params : list R) : preserves frame (cache_state B params).
Proof. unfold cache_state. pose proof frame_execute_device. frame_auto. Qed.

Lemma frame_diff_circuit_ops op p_idx : preserves frame (diff_circuit_ops B op p_idx).
Proof. unfold diff_circuit_ops. frame_auto. Qed.

Lemma frame_replay diff_ops (multiplier : R) :
  preserves frame (replay B diff_ops multiplier).
Proof.
  unfold replay. pose proof frame_snapshot. pose proof frame_call_device_execute.
  frame_auto.
Qed.

Lemma frame_analytic_pd idx (params : list R) : preserves frame (analytic_pd B idx params).
Proof.
  unfold analytic_pd.
  pose proof frame_check_measurements. pose proof frame_cache_state.
  pose proof frame_set_parameters. pose proof frame_diff_circuit_ops.
  pose proof frame_replay. frame_auto.
Qed.

Lemma frame_numeric_pd idx (params : list R) y0 ord :
  preserves frame (numeric_pd B idx params y0 ord).
Proof. unfold numeric_pd. pose proof frame_execute_device. frame_auto. Qed.

Lemma frame_device_pd : preserves frame (device_pd B).
Proof. unfold device_pd. pose proof frame_snapshot. frame_auto. Qed.

Lemma frame_QuantumTape__grad_method idx use_graph default_method :
  preserves frame
    (QuantumTape__grad_method (R:=R) (Tensor:=Tensor) idx use_graph default_method).
Proof. unfold QuantumTape__grad_method. frame_auto. Qed.

Lemma frame_jacobian_columns pd opts (params : list R) y0 l diff_methods :
  (∀ idx ps, preserves frame (pd idx ps)) →
  preserves frame (jacobian_columns B pd opts params y0 l diff_methods).
Proof.
  intros Hpd. revert l.
  induction diff_methods as [|param_method rest IH]; intros l; simpl.
  - frame_auto.
  - pose proof frame_numeric_pd. pose proof (IH (S l)). frame_auto.
Qed.

Lemma frame_jacobian_at grad pd (params : list R) opts :
  (∀ idx, preserves frame (grad idx)) →
  (∀ idx ps, preserves frame (pd idx ps)) →
  preserves frame (jacobian_at B grad pd params opts).
Proof.
  intros Hgrad Hpd. unfold jacobian_at.
  pose proof frame_device_pd. pose proof frame_execute_device.
  frame_auto. by apply frame_jacobian_columns.
Qed.

Lemma frame_QuantumTape_jacobian grad pd (params : option (list R)) opts :
  (∀ idx, preserves frame (grad idx)) →
  (∀ idx ps, preserves frame (pd idx ps)) →
  preserves frame (QuantumTape_jacobian B grad pd params opts).
Proof.
  intros Hgrad Hpd. unfold QuantumTape_jacobian.
  pose proof frame_get_parameters.
  pose proof (λ ps o, frame_jacobian_at grad pd ps o Hgrad Hpd).
  frame_auto.
Qed.

Lemma frame_jacobian (params : option (list R)) opts : preserves frame (jacobian B params opts).
Proof.
  unfold jacobian. frame_auto.
  apply frame_QuantumTape_jacobian.
  - intros idx. apply frame_QuantumTape__grad_method.
  - apply frame_analytic_pd.
Qed.

End FrameMethods.

(** ** Successful runs *)

Section Runs.

Context {R C Tensor : Type} (B : Backend R C Tensor).
#[local] Abbreviation World := (World R Tensor).
#[local] Abbreviation M := (M R Tensor).
#[local] Abbreviation calm := (@calm R Tensor).

#[export] Instance calm_preorder : PreOrder calm.
Proof.
  split; [done|]. unfold calm. intros w1 w2 w3 (?&?&?) (?&?&?). split_and!; congruence.
Qed.

Lemma calm_alloc (o : Operation R) : preserves calm (alloc (Tensor:=Tensor) o).
Proof. done. Qed.

Lemma calm_update r (f : Operation R → Operation R) :
  preserves calm (update (Tensor:=Tensor) r f).
Proof.
  intros w. unfold update, bind, load. simpl. by destruct (store w !! r).
Qed.

Lemma calm_copy_inv r : preserves calm (let* c := copy (R:=R) (Tensor:=Tensor) r in inv c).
Proof. intros w. rewrite copy_inv_run. by destruct (store w !! r). Qed.

End Runs.

Ltac calm_step :=
  first
    [ match goal with H : _ |- preserves _ _ => apply H end
    | apply preserves_ret; tc_solve
    | apply preserves_raise; tc_solve
    | apply preserves_lift; tc_solve
    | apply preserves_get_self; tc_solve
    | apply preserves_get_device; tc_solve
    | apply preserves_load; tc_solve
    | apply preserves_read_self_state; tc_solve
    | apply calm_alloc
    | apply calm_copy_inv
    | apply calm_update
    | apply preserves_mapM; [tc_solve|intros ?]
    | apply preserves_forM_; [tc_solve|intros ?]
    | apply preserves_bind; [tc_solve| |intros ?]
    | progress case_match ].

Ltac calm_auto := repeat calm_step.

Section CalmMethods.

Context {R C Tensor : Type} (B : Backend R C Tensor).
#[local] Abbreviation World := (World R Tensor).
#[local] Abbreviation M := (M R Tensor).
#[local] Abbreviation calm := (@calm R Tensor).

Lemma calm_get_parameters : preserves calm (get_parameters (Tensor:=Tensor) (R:=R)).
Proof. unfold get_parameters. calm_auto. Qed.

Lemma calm_set_parameters (params : list R) :
  preserves calm (set_parameters (Tensor:=Tensor) params).
Proof. unfold set_parameters. calm_auto. Qed.

Lemma calm_snapshot ops ms : preserves calm (snapshot (R:=R) (Tensor:=Tensor) ops ms).
Proof. unfold snapshot. calm_auto. Qed.

Lemma calm_diff_circuit_ops op p_idx : preserves calm (diff_circuit_ops B op p_idx).
Proof. unfold diff_circuit_ops. calm_auto. Qed.

Lemma calm_check_measurements : preserves calm (check_measurements B).
Proof. unfold check_measurements. calm_auto. Qed.

End CalmMethods.

(** ** References and the objects behind them *)

Section Objects.

Context {R C Tensor : Type}.
#[local] Abbreviation World := (World R Tensor).
#[local] Abbreviation M := (M R Tensor).
#[local] Abbreviation points_to := (@points_to R).

Lemma points_to_grow (st : list (Operation R)) ext refs vals :
  points_to st refs vals → points_to (st ++ ext) refs vals.
Proof.
  unfold points_to. intros H. eapply Forall2_impl; [exact H|].
  simpl. intros r v Hr. by apply lookup_app_l_Some.
Qed.

Lemma points_to_new (st : list (Operation R)) vals ext :
  points_to (st ++ vals ++ ext) (seq (length st) (length vals)) vals.
Proof.
  unfold points_to. revert st. induction vals as [|v vals IH]; intros st; simpl.
  - constructor.
  - constructor.
    + by rewrite list_lookup_middle.
    + specialize (IH (st ++ [v])). rewrite length_app in IH. simpl in IH.
      rewrite <- app_assoc in IH. simpl in IH.
      by replace (length st + 1) with (S (length st)) in IH by lia.
Qed.

Lemma points_to_drop (st : list (Operation R)) refs vals n :
  points_to st refs vals → points_to st (drop n refs) (drop n vals).
Proof. apply Forall2_drop. Qed.

Lemma points_to_app (st : list (Operation R)) refs1 vals1 refs2 vals2 :
  points_to st refs1 vals1 → points_to st refs2 vals2 →
  points_to st (refs1 ++ refs2) (vals1 ++ vals2).
Proof. apply Forall2_app. Qed.

Lemma points_to_reverse (st : list (Operation R)) refs vals :
  points_to st refs vals → points_to st (reverse refs) (reverse vals).
Proof.
  unfold points_to. induction 1 as [|r v refs vals Hr _ IH]; [constructor|].
  rewrite !reverse_cons. apply Forall2_app; [done|]. by repeat constructor.
Qed.

Lemma points_to_inj (st : list (Operation R)) refs vals1 vals2 :
  points_to st refs vals1 → points_to st refs vals2 → vals1 = vals2.
Proof.
  unfold points_to. intros H. revert vals2.
  induction H as [|r v refs vals Hr _ IH]; intros vals2 H2.
  - by apply Forall2_nil_inv_l in H2.
  - apply Forall2_cons_inv_l in H2 as (v2 & vals2' & Hr2 & H2 & ->).
    f_equal; [congruence|by apply IH].
Qed.

Lemma load_ok r (w : World) o w' :
  load r w = (Ok o, w') ↔ store w !! r = Some o ∧ w' = w.
Proof.
  unfold load. destruct (store w !! r); simpl; split.
  - by intros [= -> ->].
  - by intros [[= ->] ->].
  - done.
  - by intros [? _].
Qed.

Lemma mapM_load_run refs (w : World) vals :
  points_to (store w) refs vals → mapM load refs w = (Ok vals, w).
Proof.
  unfold points_to. induction 1 as [|r v refs vals Hr _ IH]; simpl; [done|].
  unfold bind at 1. rewrite (proj2 (load_ok r w v w) (conj Hr eq_refl)).
  unfold bind at 1. by rewrite IH.
Qed.

Lemma mapM_load_ok refs (w : World) vals w' :
  mapM load refs w = (Ok vals, w') → w' = w ∧ points_to (store w) refs vals.
Proof.
  revert vals. induction refs as [|r refs IH]; intros vals; simpl.
  - intros [= <- <-]. split; [done|constructor].
  - intros H. apply bind_ok in H as (o & w1 & Hload & H).
    apply load_ok in Hload as [Hr ->].
    apply bind_ok in H as (os & w2 & Hrest & H).
    injection H as <- <-. destruct (IH _ Hrest) as [-> Hpt].
    split; [done|by constructor].
Qed.

Lemma mapM_alloc_run (vals : list (Operation R)) (w : World) :
  mapM alloc vals w =
  (Ok (seq (length (store w)) (length vals)),
   mkWorld (store w ++ vals) (self w) (device w) (trace w)).
Proof.
  revert w. induction vals as [|v vals IH]; intros w; simpl.
  - unfold ret. rewrite app_nil_r. by destruct w.
  - unfold bind at 1, alloc at 1. unfold bind. rewrite IH. simpl.
    rewrite length_app, <- app_assoc. simpl.
    by replace (length (store w) + 1) with (S (length (store w))) by lia.
Qed.

(** The reversed, inverted segment: every object that is copied is one
    that exists when it is copied, the copies are new, and no existing
    object is written to. *)
Lemma mapM_copy_inv_ok refs (w : World) new w' :
  mapM (λ r, let* c := copy r in inv c) refs w = (Ok new, w') →
  ∃ vals, w' = mkWorld (store w ++ map toggle_inverse vals) (self w) (device w) (trace w)
          ∧ points_to (store w') refs vals
          ∧ new = seq (length (store w)) (length refs).
Proof.
  revert w new. induction refs as [|r refs IH]; intros w new; simpl.
  - intros [= <- <-]. exists []. simpl. rewrite app_nil_r.
    split_and!; [by destruct w|constructor|done].
  - intros H. apply bind_ok in H as (c & w1 & Hc & H).
    rewrite copy_inv_run in Hc. destruct (store w !! r) as [o|] eqn:Hr; [|done].
    injection Hc as <- <-.
    apply bind_ok in H as (cs & w2 & Hrest & H). injection H as <- <-.
    destruct (IH _ _ Hrest) as (vals & -> & Hpt & ->). simpl in *.
    exists (o :: vals). simpl. rewrite <- app_assoc. simpl. split_and!.
    + done.
    + constructor; [by apply lookup_app_l_Some|]. by rewrite <- app_assoc in Hpt.
    + rewrite length_app. simpl. do 2 f_equal. lia.
Qed.

End Objects.

(** ** Unsupported measurements and gates *)

Section Unsupported.

Context {R C Tensor : Type} (B : Backend R C Tensor).
#[local] Abbreviation World := (World R Tensor).
#[local] Abbreviation measurement_error := (measurement_error B).

(** The loop over the measurements stops at the first variance or
    probability, and writes nothing. *)
Lemma check_measurements_run (w : World) :
  check_measurements B w =
  (match list_find unsupported_measurement (measurements (self w)) with
   | Some (_, m) => Raise (measurement_error m)
   | None => Ok tt
   end, w).
Proof.
  unfold check_measurements, bind, get_self. simpl.
  induction (measurements (self w)) as [|m ms IH]; simpl; [done|].
  unfold bind. fold (unsupported_measurement m).
  destruct (decide (unsupported_measurement m)) as [Hm|Hm].
  - by rewrite bool_decide_eq_true_2.
  - rewrite bool_decide_eq_false_2 by done. simpl. rewrite IH.
    by destruct (list_find unsupported_measurement ms) as [[? ?]|].
Qed.

(** C7: with a variance or a probability on the tape, or with an owning
    operation that is not RX, RY, RZ or Rot, [analytic_pd] raises a
    [ValueError] whose message names the return type, respectively the
    gate, and the world is the one it was called in: nothing was executed
    on the device (the trace is the same) and nothing was written. *)
Theorem analytic_pd_unsupported (idx : nat) (params : list R) (w : World)
    (t_idx : nat) (info : ParInfo) :
  trainable_params (self w) !! idx = Some t_idx →
  _par_info (self w) !! t_idx = Some info →
  ((∃ m, m ∈ measurements (self w) ∧ unsupported_measurement m) →
   ∃ m, m ∈ measurements (self w) ∧ unsupported_measurement m
        ∧ analytic_pd B idx params w = (Raise (measurement_error m), w))
  ∧ (∀ o, store w !! par_op info = Some o → name o ∉ supported_gates →
          (Forall (λ m, ¬ unsupported_measurement m) (measurements (self w)) →
           analytic_pd B idx params w = (Raise (gate_error o), w))
          ∧ ∃ msg, analytic_pd B idx params w = (Raise (ValueError msg), w)).
Proof.
  intros Ht Hinfo.
  assert (∀ k, analytic_pd B idx params w =
               match list_find unsupported_measurement (measurements (self w)) with
               | Some (_, m) => (Raise (measurement_error m), w)
               | None =>
                   match store w !! par_op info with
                   | Some o =>
                       if bool_decide (name o ∉ supported_gates)
                       then (Raise (gate_error o), w)
                       else k o
                   | None => (Raise TypeError, w)
                   end
               end
               ∨ ∃ o, store w !! par_op info = Some o ∧ name o ∈ supported_gates) as Hrun.
  { intros k. unfold analytic_pd, bind at 1, get_self. simpl.
    unfold bind at 1, lift. rewrite Ht. simpl.
    unfold bind at 1. rewrite Hinfo. simpl.
    unfold bind at 1. rewrite check_measurements_run.
    destruct (list_find unsupported_measurement (measurements (self w)))
      as [[i m]|] eqn:Hfind; [by left|].
    unfold bind at 1, load. simpl.
    destruct (store w !! par_op info) as [o|] eqn:Ho; simpl; [|by left].
    destruct (decide (name o ∈ supported_gates)) as [Hin|Hnin].
    - right. by exists o.
    - left. rewrite bool_decide_eq_true_2 by done. done. }
  split.
  - intros (m & Hm & Hbad).
    destruct (list_find unsupported_measurement (measurements (self w)))
      as [[i m']|] eqn:Hfind.
    + apply list_find_Some in Hfind as Hfind'. destruct Hfind' as (Hi & Hbad' & _).
      exists m'. split_and!; [by eapply list_elem_of_lookup_2|done|].
      destruct (Hrun (λ _, (Ok [], w))) as [->|(o & Ho & Hin)]; [done|].
      unfold analytic_pd, bind at 1, get_self. simpl.
      unfold bind at 1, lift. rewrite Ht. simpl.
      unfold bind at 1. rewrite Hinfo. simpl.
      unfold bind at 1. rewrite check_measurements_run, Hfind. done.
    + apply list_find_None in Hfind. rewrite Forall_forall in Hfind.
      by destruct (Hfind m Hm).
  - intros o Ho Hnin.
    destruct (Hrun (λ _, (Ok [], w))) as [Heq|(o' & Ho' & Hin)];
      [|by simplify_eq].
    rewrite Heq, Ho, bool_decide_eq_true_2 by done. split.
    + intros Hall.
      destruct (list_find unsupported_measurement (measurements (self w)))
        as [[i m]|] eqn:Hfind; [|done].
      apply list_find_Some in Hfind as (Hi & Hbad & _).
      rewrite Forall_forall in Hall.
      destruct (Hall m); [by eapply list_elem_of_lookup_2|done].
    + destruct (list_find unsupported_measurement (measurements (self w)))
        as [[i m]|]; eauto.
Qed.

End Unsupported.

(** ** Successful runs of [analytic_pd] *)

Section Runs.

Context {R C Tensor : Type} (B : Backend R C Tensor).
#[local] Abbreviation World := (World R Tensor).
#[local] Abbreviation M := (M R Tensor).
#[local] Abbreviation calm := (@calm R Tensor).
#[local] Abbreviation points_to := (@points_to R).


(** The operations of [diff_circuit]: what they are, in the store in which
    the circuit is run. *)
Lemma diff_circuit_ops_ok op p_idx (w w' : World) diff_ops multiplier :
  diff_circuit_ops B op p_idx w = (Ok (diff_ops, multiplier), w') →
  ∃ o op_idx queued_after source g ext,
    store w !! op = Some o
    ∧ py_index op (operations (self w)) = Some op_idx
    ∧ generator_source B o p_idx = Some source
    ∧ generator B (name source) = (Some g, multiplier)
    ∧ calm w w'
    ∧ store w' = store w ++ ext
    ∧ points_to (store w') (py_slice_from (operations (self w)) (op_idx + 1)) queued_after
    ∧ points_to (store w') diff_ops
        (replay_ops (decomposition_rest B o p_idx ++ queued_after) (generator_op g o)).
Proof.
  unfold diff_circuit_ops. intros H.
  apply bind_ok in H as (o & w1 & Hload & H). apply load_ok in Hload as [Ho ->].
  apply bind_ok in H as (t & w1 & Ht & H). injection Ht as <- <-.
  apply bind_ok in H as (op_idx & w1 & Hidx & H).
  apply lift_ok in Hidx as [Hidx ->]. apply of_option_ok in Hidx.
  apply bind_ok in H as ([[gen mult] between] & w1 & Hgb & H). simpl in H.
  apply bind_ok in H as (gref & w2 & Hgen & H).
  apply bind_ok in H as (inverted & w3 & Hinv & H).
  injection H as <- <- <-.
  (* the generator and the suffix *)
  assert (∃ source dec,
            generator_source B o p_idx = Some source
            ∧ generator B (name source) = (gen, mult)
            ∧ w1 = mkWorld (store w ++ dec) (self w) (device w) (trace w)
            ∧ ∃ rest, between = rest ++ py_slice_from (operations (self w)) (op_idx + 1)
                      ∧ points_to (store w1) rest (decomposition_rest B o p_idx))
    as (source & dec & Hsrc & Hg & -> & rest & -> & Hrest).
  { unfold generator_source, decomposition_rest.
    destruct (decide (name o = "Rot")) as [Hrot|Hrot].
    - apply bind_ok in Hgb as (decomp & w0 & Hdec & Hgb).
      rewrite mapM_alloc_run in Hdec. injection Hdec as <- <-.
      apply bind_ok in Hgb as (d & w0 & Hd & Hgb).
      apply lift_ok in Hd as [Hd ->]. apply of_option_ok in Hd.
      apply bind_ok in Hgb as (od & w0 & Hod & Hgb).
      apply load_ok in Hod as [Hod ->]. simpl in Hod.
      injection Hgb as Hgen' <- <-.
      set (D := Rot_decomposition B (parameters o) (wires o)) in *.
      pose proof (points_to_new (store w) D []) as Hnew. rewrite app_nil_r in Hnew.
      assert (D !! p_idx = Some od) as HD.
      { unfold points_to in *.
        destruct (Forall2_lookup_l _ _ _ _ _ Hnew Hd) as (v & Hv & Hdv). congruence. }
      exists od, D. split_and!; [done|by destruct (generator B (name od))|done|].
      eexists. split; [done|]. simpl. by apply points_to_drop.
    - injection Hgb as <- <- <-. exists o, []. rewrite app_nil_r.
      split_and!; [done|by destruct (generator B (name o))|by destruct w|].
      exists []. split; [done|constructor]. }
  destruct gen as [g|]; [|done].
  injection Hgen as <- <-. simpl in *.
  apply mapM_copy_inv_ok in Hinv as (vals & -> & Hvals & ->). simpl in *.
  assert (∃ queued_after,
             vals = reverse (decomposition_rest B o p_idx ++ queued_after)
             ∧ points_to ((store w ++ dec) ++ [generator_op g o] ++ map toggle_inverse vals)
                 (py_slice_from (operations (self w)) (op_idx + 1)) queued_after)
    as (queued_after & -> & Hq).
  { rewrite reverse_app in Hvals. rewrite <- app_assoc in Hvals. simpl in Hvals.
    apply Forall2_app_inv_l in Hvals as (v1 & v2 & Hv1 & Hv2 & ->).
    exists (reverse v1).
    apply points_to_reverse in Hv1, Hv2. rewrite reverse_involutive in Hv1, Hv2.
    assert (reverse v2 = decomposition_rest B o p_idx) as <-.
    { eapply points_to_inj; [exact Hv2|].
      by apply points_to_grow. }
    split; [by rewrite reverse_app, !reverse_involutive|].
    exact Hv1. }
  clear Hgb.
  change (mkOperation g (wires o) [] false None) with (generator_op g o) in *.
  set (G := generator_op g o) in *.
  set (suffix := decomposition_rest B o p_idx ++ queued_after) in *.
  exists o, op_idx, queued_after, source, g,
    (dec ++ [G] ++ map toggle_inverse (reverse suffix)).
  assert (length (reverse (rest ++ py_slice_from (operations (self w)) (op_idx + 1)))
          = length (map toggle_inverse (reverse suffix))) as Hlen.
  { rewrite length_map. exact (Forall2_length _ _ _ Hvals). }
  split_and!; try done.
  - by rewrite <- !app_assoc.
  - repeat rewrite <- app_assoc in Hq. repeat rewrite <- app_assoc. exact Hq.
  - unfold replay_ops. apply points_to_app.
    + rewrite Hlen.
      pose proof (points_to_new ((store w ++ dec) ++ [G])
                    (map toggle_inverse (reverse suffix)) []) as Hnew.
      by rewrite app_nil_r in Hnew.
    + change (length (store w ++ dec)
                :: rest ++ py_slice_from (operations (self w)) (op_idx + 1))
        with ([length (store w ++ dec)]
                ++ rest ++ py_slice_from (operations (self w)) (op_idx + 1)).
      apply points_to_app; [|apply points_to_app].
      * repeat constructor. rewrite <- app_assoc. by apply list_lookup_middle.
      * rewrite <- app_assoc. by apply points_to_grow.
      * repeat rewrite <- app_assoc in Hq. repeat rewrite <- app_assoc. exact Hq.
Qed.

Lemma read_self_state_ok (w : World) s w' :
  read_self_state w = (Ok s, w') ↔ self_state (self w) = Some s ∧ w' = w.
Proof.
  unfold read_self_state, bind, get_self. simpl.
  destruct (self_state (self w)); simpl; split.
  - by intros [= -> ->].
  - by intros [[= ->] ->].
  - done.
  - by intros [? _].
Qed.

Lemma matrix_elems_run (f : Observable Tensor → Tensor → Result C) obs (w : World) s :
  self_state (self w) = Some s →
  mapM (λ ob, let* state := read_self_state in lift (f ob state)) obs w
  = (rmapM (λ ob, f ob s) obs, w).
Proof.
  intros Hs. induction obs as [|ob obs IH]; simpl; [done|].
  unfold bind at 1. unfold bind at 1.
  rewrite (proj2 (read_self_state_ok w s w) (conj Hs eq_refl)).
  unfold lift at 1. destruct (f ob s) as [e|err]; simpl; [|done].
  unfold bind at 1. rewrite IH. by destruct (rmapM (λ ob0, f ob0 s) obs).
Qed.

Lemma replay_ok diff_ops multiplier (w w' : World) res :
  replay B diff_ops multiplier w = (Ok res, w') →
  ∃ state vals elems,
    self_state (self w) = Some state
    ∧ points_to (store w) diff_ops vals
    ∧ let seeded := mkDevice state (_pre_rotated_state (device w)) in
      let after := (device_execute B (mkCircuit vals []) seeded).1 in
      rmapM (λ ob, _matrix_elem B (_pre_rotated_state after) ob state)
            (observables (self w)) = Ok elems
      ∧ res = map (rmul B (rmul B (two B) multiplier)) (map (imag B) elems)
      ∧ w' = mkWorld (store w) (self w) (mkDevice (_state after) state)
                     (trace w ++ [Spy_device_execute (mkCircuit vals []) seeded]).
Proof.
  unfold replay. intros H.
  apply bind_ok in H as (state & w1 & Hs & H).
  apply read_self_state_ok in Hs as [Hs ->].
  apply bind_ok in H as (d & w1 & Hd & H). injection Hd as <- <-.
  apply bind_ok in H as ([] & w1 & Hput & H). injection Hput as <-.
  apply bind_ok in H as (c & w2 & Hc & H).
  unfold snapshot in Hc. apply bind_ok in Hc as (vals & w3 & Hvals & Hc).
  apply mapM_load_ok in Hvals as [-> Hvals]. injection Hc as <- <-. simpl in Hvals.
  apply bind_ok in H as (raw & w2 & Hexec & H).
  unfold call_device_execute, bind, get_device, spy, put_device, ret in Hexec.
  simpl in Hexec. injection Hexec as <- <-.
  apply bind_ok in H as (d & w2 & Hd & H). injection Hd as <- <-.
  apply bind_ok in H as (t & w2 & Ht & H). injection Ht as <- <-.
  apply bind_ok in H as (elems & w2 & Helems & H).
  rewrite (matrix_elems_run _ _ _ state) in Helems by done.
  simpl in Helems. injection Helems as Helems <-.
  apply bind_ok in H as (state' & w2 & Hs' & H).
  apply read_self_state_ok in Hs' as [Hs' ->]. simpl in Hs'.
  assert (state' = state) as -> by congruence.
  apply bind_ok in H as (d & w2 & Hd & H). injection Hd as <- <-.
  apply bind_ok in H as ([] & w2 & Hput & H). injection Hput as <-.
  injection H as <- <-.
  exists state, vals, elems. simpl. split_and!; done.
Qed.

Lemma calm_run {A} (m : M A) (w : World) r w' :
  preserves calm m → m w = (r, w') →
  self w' = self w ∧ device w' = device w ∧ trace w' = trace w.
Proof. intros Hm Heq. specialize (Hm w). by rewrite Heq in Hm. Qed.

Lemma execute_device_ok (params : list R) (w w' : World) res :
  execute_device B params w = (Ok res, w') →
  ∃ c, self w' = self w
       ∧ device w' = (device_execute B c (device w)).1
       ∧ trace w' = trace w ++ [Spy_execute_device params; Spy_device_execute c (device w)].
Proof.
  unfold execute_device. intros H.
  apply bind_ok in H as ([] & w1 & Hspy & H). injection Hspy as <-.
  apply bind_ok in H as (saved & w1 & Hget & H).
  destruct (calm_run _ _ _ _ calm_get_parameters Hget) as (Hs1 & Hd1 & Ht1).
  simpl in *.
  apply bind_ok in H as ([] & w2 & Hset & H).
  destruct (calm_run _ _ _ _ (calm_set_parameters params) Hset) as (Hs2 & Hd2 & Ht2).
  apply bind_ok in H as (t & w3 & Ht & H). injection Ht as <- <-.
  apply bind_ok in H as (c & w3 & Hsnap & H).
  destruct (calm_run _ _ _ _ (calm_snapshot _ _) Hsnap) as (Hs3 & Hd3 & Ht3).
  apply bind_ok in H as (raw & w4 & Hexec & H).
  unfold call_device_execute, bind, get_device, spy, put_device, ret in Hexec.
  simpl in Hexec. injection Hexec as <- <-.
  apply bind_ok in H as ([] & w5 & Hset' & H). injection H as <- <-.
  destruct (calm_run _ _ _ _ (calm_set_parameters saved) Hset') as (Hs5 & Hd5 & Ht5).
  simpl in *.
  exists c. rewrite Hs5, Hd5, Ht5, Hs3, Hd3, Ht3, Hs2, Hd2, Ht2, Hs1, Hd1, Ht1.
  split_and!; [done|done|]. by rewrite <- app_assoc.
Qed.

Lemma cache_state_ok (params : list R) (w w' : World) :
  cache_state B params w = (Ok tt, w') →
  match self_state (self w) with
  | Some s => w' = w
  | None =>
      ∃ c, trace w' = trace w ++ [Spy_execute_device params;
                                   Spy_device_execute c (device w)]
           ∧ device w' = (device_execute B c (device w)).1
           ∧ self_state (self w') = Some (_pre_rotated_state (device w'))
  end.
Proof.
  unfold cache_state. intros H.
  apply bind_ok in H as (t & w1 & Ht & H). injection Ht as <- <-.
  destruct (self_state (self w)) as [s|]; [by injection H as <-|].
  apply bind_ok in H as (raw & w1 & Hexec & H).
  apply execute_device_ok in Hexec as (c & Hs & Hd & Htr).
  apply bind_ok in H as (d & w2 & Hdev & H). injection Hdev as <- <-.
  unfold set_self_state, bind, get_self, put_self in H. simpl in H.
  injection H as <-. simpl. exists c. by rewrite Hd.
Qed.

Lemma frame_run {A} (m : M A) (w : World) r w' :
  preserves frame m → m w = (r, w') → frame w w'.
Proof. intros Hm Heq. specialize (Hm w). by rewrite Heq in Hm. Qed.

(** Every call of [analytic_pd] that returns is a run as described by
    [analytic_run]. *)
Lemma analytic_pd_ok idx (params : list R) (w w' : World) res :
  analytic_pd B idx params w = (Ok res, w') → analytic_run B idx params w w' res.
Proof.
  unfold analytic_pd. intros H.
  apply bind_ok in H as (t & w0 & Ht & H). injection Ht as <- <-.
  apply bind_ok in H as (t_idx & w0 & Htr & H).
  apply lift_ok in Htr as [Htr ->]. apply of_option_ok in Htr.
  apply bind_ok in H as (info & w0 & Hinfo & H).
  apply lift_ok in Hinfo as [Hinfo ->]. apply of_option_ok in Hinfo.
  apply bind_ok in H as ([] & w0 & Hmeas & H).
  rewrite check_measurements_run in Hmeas.
  destruct (list_find unsupported_measurement (measurements (self w)))
    as [[i m]|] eqn:Hfind; [done|].
  injection Hmeas as <-. apply list_find_None in Hfind.
  apply bind_ok in H as (o0 & w0 & Ho0 & H). apply load_ok in Ho0 as [Ho0 ->].
  destruct (bool_decide (name o0 ∉ supported_gates)) eqn:Hname; [done|].
  apply bool_decide_eq_false in Hname. apply dec_stable in Hname.
  apply bind_ok in H as ([] & w1 & Hcache & H).
  apply bind_ok in H as ([] & w2 & Hset & H).
  apply bind_ok in H as ([diff_ops multiplier] & w3 & Hdiff & H). simpl in H.
  pose proof (frame_run _ _ _ _ (frame_cache_state B params) Hcache) as Hf1.
  pose proof (frame_run _ _ _ _ (frame_set_parameters params) Hset) as Hf2.
  destruct (calm_run _ _ _ _ (calm_set_parameters params) Hset) as (Hs2 & Hd2 & Ht2).
  assert (frame w w2) as Hf by (by etrans).
  apply cache_state_ok in Hcache.
  apply diff_circuit_ops_ok in Hdiff
    as (o & op_idx & queued_after & source & g & ext
        & Ho & Hidx & Hsrc & Hgen & (Hs3 & Hd3 & Ht3) & Hst3 & Hafter & Hdiff).
  apply replay_ok in H as (state & vals & elems & Hstate & Hvals & Helems & Hres & ->).
  simpl in *.
  assert (vals = replay_ops (decomposition_rest B o (par_p_idx info) ++ queued_after)
                            (generator_op g o)) as ->
    by (by eapply points_to_inj).
  destruct (frame_store _ _ Hf _ _ Ho0) as (o' & Ho' & Hsame).
  assert (o' = o) as -> by congruence.
  destruct Hsame as (Hn & _).
  eapply (AnalyticRun B idx params w _ res t_idx info o op_idx queued_after source g
            multiplier state
            (trace w1) (mkDevice state (_pre_rotated_state (device w3))) elems);
    simpl; try done.
  - rewrite Hst3. by apply lookup_app_l_Some.
  - by rewrite Hn.
  - by rewrite (frame_operations _ _ Hf) in Hidx.
  - by rewrite (frame_operations _ _ Hf) in Hafter.
  - rewrite Hs3, Hs2 in Hstate.
    destruct (self_state (self w)) as [s|] eqn:Hs.
    + subst w1. split; [congruence|done].
    + destruct Hcache as (c & Htr1 & Hd1 & Hs1). exists c. split; [done|].
      rewrite <- Hd1. congruence.
  - by rewrite Ht3, Ht2.
  - unfold observables in *.
    rewrite Hs3, (frame_measurements _ _ Hf) in Helems. exact Helems.
Qed.

End Runs.

(** ** The replay circuit and the derivative *)

Section ReplayClaims.

Context {R C Tensor : Type} (B : Backend R C Tensor).
#[local] Abbreviation World := (World R Tensor).
#[local] Abbreviation points_to := (@points_to R).



Lemma rmapM_ok {A X} (f : A → Result X) l bs :
  rmapM f l = Ok bs ↔ Forall2 (λ a b, f a = Ok b) l bs.
Proof.
  revert bs. induction l as [|a l IH]; intros bs; simpl.
  - split; [intros [= <-]; constructor|]. intros H. by apply Forall2_nil_inv_l in H as ->.
  - destruct (f a) as [b|e] eqn:Hfa; simpl.
    + destruct (rmapM f l) as [bs'|e] eqn:Hl; simpl.
      * split.
        -- intros [= <-]. constructor; [done|]. by apply IH.
        -- intros H. apply Forall2_cons_inv_l in H as (b' & bs'' & Hb & Hbs & ->).
           apply IH in Hbs. congruence.
      * split; [done|]. intros H.
        apply Forall2_cons_inv_l in H as (b' & bs'' & Hb & Hbs & ->).
        by apply IH in Hbs.
    + split; [done|]. intros H.
      apply Forall2_cons_inv_l in H as (b' & bs'' & Hb & Hbs & ->). congruence.
Qed.

(** C2: the vector that [analytic_pd] returns has one entry for each
    observable of the tape, in the declared order, and the entry of an
    observable is 2 times the multiplier of the generator times the
    imaginary part of the matrix element of that observable between the
    state that the replay circuit leaves on the device (the perturbed
    state) and the cached pre-measurement state. *)
Theorem analytic_pd_value (idx : nat) (params : list R) (w w' : World) (res : list R) :
  analytic_pd B idx params w = (Ok res, w') →
  ∃ multiplier state before c seeded dstate,
    self_state (self w') = Some state
    ∧ trace w' = before ++ [Spy_device_execute c seeded]
    ∧ dstate = _pre_rotated_state (device_execute B c seeded).1
    ∧ (∃ t_idx info o source g,
         trainable_params (self w) !! idx = Some t_idx
         ∧ _par_info (self w) !! t_idx = Some info
         ∧ store w' !! par_op info = Some o
         ∧ generator_source B o (par_p_idx info) = Some source
         ∧ generator B (name source) = (Some g, multiplier))
    ∧ length res = length (observables (self w))
    ∧ ∀ i ob, observables (self w) !! i = Some ob →
        ∃ elem, _matrix_elem B dstate ob state = Ok elem
                ∧ res !! i = Some (rmul B (rmul B (two B) multiplier) (imag B elem)).
Proof.
  intros H. apply analytic_pd_ok in H. destruct H.
  eexists multiplier, state, before, _, seeded, _.
  split_and!; [done|done|done| | |].
  - by exists t_idx, info, o, source, g.
  - apply rmapM_ok in run_elems. apply Forall2_length in run_elems.
    by rewrite run_result, !length_map.
  - intros i ob Hob. apply rmapM_ok in run_elems.
    destruct (Forall2_lookup_l _ _ _ _ _ run_elems Hob) as (elem & Helem & Hval).
    exists elem. split; [done|].
    by rewrite run_result, !list_lookup_fmap, Helem.
Qed.

(** C6: when [analytic_pd] returns, the pre-rotated state of the device is
    the cached pre-measurement state again; the cache is the one that the
    call found, if it found one; and the replay circuit was started on
    that state.  A following call therefore runs its replay from the same,
    unperturbed, state and leaves the device in the same way. *)
Theorem analytic_pd_restores_device (idx idx2 : nat) (params params2 : list R)
    (w w' w'' : World) (res res2 : list R) :
  analytic_pd B idx params w = (Ok res, w') →
  ∃ state,
    self_state (self w') = Some state
    ∧ _pre_rotated_state (device w') = state
    ∧ (∀ s, self_state (self w) = Some s → state = s)
    ∧ (∃ before c seeded,
         trace w' = before ++ [Spy_device_execute c seeded] ∧ _state seeded = state)
    ∧ (analytic_pd B idx2 params2 w' = (Ok res2, w'') →
       self_state (self w'') = Some state
       ∧ _pre_rotated_state (device w'') = state
       ∧ ∃ c2 seeded2,
           trace w'' = trace w' ++ [Spy_device_execute c2 seeded2]
           ∧ _state seeded2 = state).
Proof.
  intros H. apply analytic_pd_ok in H.
  destruct H as [? ? ? ? ? ? ? ? state before seeded ? ? ? ? ? ? ? ? ? ?
                   Hstate Hcache Hseed Htrace Hdev ? ?].
  exists state. split_and!.
  - done.
  - by rewrite Hdev.
  - intros s Hs. rewrite Hs in Hcache. by destruct Hcache.
  - by eexists before, _, seeded.
  - intros H2. apply analytic_pd_ok in H2.
    destruct H2 as [? ? ? ? ? ? ? ? state2 before2 seeded2 ? ? ? ? ? ? ? ? ? ?
                      Hstate2 Hcache2 Hseed2 Htrace2 Hdev2 ? ?].
    rewrite Hstate in Hcache2. destruct Hcache2 as [-> ->].
    split_and!; [done|by rewrite Hdev2|]. by eexists _, seeded2.
Qed.

(** C10: whatever the outcome of [analytic_pd], the queue of operations of
    the tape is the one it was, and every object that existed before the
    call has its inverse flag (and its name and wires) as before: the
    inverted operations of the replay circuit are new objects, made by
    copying. *)
Theorem analytic_pd_keeps_queue (idx : nat) (params : list R) (w : World) :
  operations (self (analytic_pd B idx params w).2) = operations (self w)
  ∧ (∀ r o, store w !! r = Some o →
       ∃ o', store (analytic_pd B idx params w).2 !! r = Some o'
             ∧ inverse o' = inverse o ∧ name o' = name o ∧ wires o' = wires o)
  ∧ (∀ r (w0 : World),
       (let* c := copy r in inv c) w0 =
       match store w0 !! r with
       | Some o => (Ok (length (store w0)),
                    mkWorld (store w0 ++ [toggle_inverse o]) (self w0) (device w0)
                            (trace w0))
       | None => (Raise TypeError, w0)
       end).
Proof.
  pose proof (frame_analytic_pd B idx params w) as [Hops _ _ _ Hstore].
  split_and!.
  - done.
  - intros r o Hr. destruct (Hstore r o Hr) as (o' & Hr' & Hn & Hw & Hi & _).
    by exists o'.
  - intros r w0. apply copy_inv_run.
Qed.

End ReplayClaims.

(** ** One run of the full tape per Jacobian *)

Section Quiet.

Context {R C Tensor : Type} (B : Backend R C Tensor).
#[local] Abbreviation World := (World R Tensor).
#[local] Abbreviation M := (M R Tensor).
#[local] Abbreviation quiet := (@quiet R Tensor).
#[local] Abbreviation cached_quiet := (@cached_quiet R Tensor).

#[export] Instance quiet_preorder : PreOrder quiet.
Proof.
  split; [done|]. unfold quiet. intros w1 w2 w3 [? ?] [? ?]. split; congruence.
Qed.

#[export] Instance cached_quiet_preorder : PreOrder cached_quiet.
Proof.
  split; [by intros w _|]. intros w1 w2 w3 H12 H23 Hs.
  specialize (H12 Hs). etrans; [exact H12|]. apply H23.
  destruct H12 as [_ ->]. done.
Qed.

Lemma quiet_same (w w' : World) :
  trace w' = trace w → self_state (self w') = self_state (self w) → quiet w w'.
Proof. unfold quiet, executions. by intros -> ->. Qed.

Lemma quiet_alloc (o : Operation R) : preserves quiet (alloc (Tensor:=Tensor) o).
Proof. intros w. by apply quiet_same. Qed.

Lemma quiet_update r (f : Operation R → Operation R) :
  preserves quiet (update (Tensor:=Tensor) r f).
Proof.
  intros w. unfold update, bind, load. simpl.
  destruct (store w !! r); by apply quiet_same.
Qed.

Lemma quiet_copy_inv r : preserves quiet (let* c := copy (R:=R) (Tensor:=Tensor) r in inv c).
Proof. intros w. rewrite copy_inv_run. destruct (store w !! r); by apply quiet_same. Qed.

Lemma quiet_put_device (d : Device Tensor) : preserves quiet (put_device (R:=R) d).
Proof. intros w. by apply quiet_same. Qed.

Lemma quiet_set_graph_built : preserves quiet (set_graph_built (R:=R) (Tensor:=Tensor)).
Proof. intros w. by apply quiet_same. Qed.

Lemma quiet_spy (e : Event R Tensor) :
  is_execute_device e = false → preserves quiet (spy e).
Proof.
  intros He w. split; [|done]. unfold executions. simpl.
  rewrite List.filter_app. simpl. rewrite He. simpl. by rewrite app_nil_r.
Qed.

End Quiet.

Ltac quiet_step :=
  first
    [ match goal with H : _ |- preserves _ _ => apply H end
    | apply preserves_ret; tc_solve
    | apply preserves_raise; tc_solve
    | apply preserves_lift; tc_solve
    | apply preserves_get_self; tc_solve
    | apply preserves_get_device; tc_solve
    | apply preserves_load; tc_solve
    | apply preserves_read_self_state; tc_solve
    | apply quiet_alloc
    | apply quiet_copy_inv
    | apply quiet_update
    | apply quiet_put_device
    | apply quiet_set_graph_built
    | apply quiet_spy; reflexivity
    | apply preserves_mapM; [tc_solve|intros ?]
    | apply preserves_forM_; [tc_solve|intros ?]
    | apply preserves_bind; [tc_solve| |intros ?]
    | progress case_match ].

Ltac quiet_auto := repeat quiet_step.

Section QuietMethods.

Context {R C Tensor : Type} (B : Backend R C Tensor).
#[local] Abbreviation World := (World R Tensor).
#[local] Abbreviation M := (M R Tensor).
#[local] Abbreviation quiet := (@quiet R Tensor).
#[local] Abbreviation cached_quiet := (@cached_quiet R Tensor).

Lemma quiet_get_parameters : preserves quiet (get_parameters (Tensor:=Tensor) (R:=R)).
Proof. unfold get_parameters. quiet_auto. Qed.

Lemma quiet_set_parameters (params : list R) :
  preserves quiet (set_parameters (Tensor:=Tensor) params).
Proof. unfold set_parameters. quiet_auto. Qed.

Lemma quiet_snapshot ops ms : preserves quiet (snapshot (R:=R) (Tensor:=Tensor) ops ms).
Proof. unfold snapshot. quiet_auto. Qed.

Lemma quiet_call_device_execute c : preserves quiet (call_device_execute B c).
Proof. unfold call_device_execute. quiet_auto. Qed.

Lemma quiet_check_measurements : preserves quiet (check_measurements B).
Proof. unfold check_measurements. quiet_auto. Qed.

Lemma quiet_diff_circuit_ops op p_idx : preserves quiet (diff_circuit_ops B op p_idx).
Proof. unfold diff_circuit_ops. quiet_auto. Qed.

Lemma quiet_replay diff_ops (multiplier : R) :
  preserves quiet (replay B diff_ops multiplier).
Proof.
  unfold replay. pose proof quiet_snapshot. pose proof quiet_call_device_execute.
  quiet_auto.
Qed.

Lemma quiet_device_pd : preserves quiet (device_pd B).
Proof. unfold device_pd. pose proof quiet_snapshot. quiet_auto. Qed.

Lemma quiet_QuantumTape__grad_method idx use_graph default_method :
  preserves quiet
    (QuantumTape__grad_method (R:=R) (Tensor:=Tensor) idx use_graph default_method).
Proof. unfold QuantumTape__grad_method. quiet_auto. Qed.





End QuietMethods.

Section Bounded.

Context {R C Tensor : Type} (B : Backend R C Tensor).
#[local] Abbreviation World := (World R Tensor).
#[local] Abbreviation M := (M R Tensor).
#[local] Abbreviation quiet := (@quiet R Tensor).
#[local] Abbreviation budget := (@budget R Tensor).
#[local] Abbreviation executions := (@executions R Tensor).








Lemma bounded_weaken {A} (Q Q' : A → Prop) (m : M A) :
  bounded Q m → (∀ a, Q a → Q' a) → bounded Q' m.
Proof.
  intros Hm HQ w. specialize (Hm w). destruct (m w) as [[a|e] w1]; [|done].
  destruct Hm. split; [done|by apply HQ].
Qed.

Lemma executions_spy (w : World) params :
  executions (spy (Spy_execute_device params) w).2 = S (executions w).
Proof.
  unfold executions. simpl. rewrite List.filter_app, length_app. simpl. lia.
Qed.

(** [execute_device] is one run of the full tape, whatever its outcome,
    and leaves the cache alone. *)
Lemma execute_device_executions (params : list R) (w : World) :
  executions (execute_device B params w).2 = S (executions w)
  ∧ self_state (self (execute_device B params w).2) = self_state (self w).
Proof.
  unfold execute_device.
  set (rest := (let* saved_parameters := get_parameters in _)).
  assert (preserves quiet rest) as Hrest.
  { unfold rest. pose proof (quiet_get_parameters (R:=R) (Tensor:=Tensor)).
    pose proof (quiet_set_parameters (R:=R) (Tensor:=Tensor)).
    pose proof (quiet_snapshot (R:=R) (Tensor:=Tensor)).
    pose proof (quiet_call_device_execute B). quiet_auto. }
  change (bind (spy (Spy_execute_device params)) (λ _, rest) w)
    with (rest (spy (Spy_execute_device params) w).2).
  destruct (Hrest (spy (Spy_execute_device params) w).2) as [He Hs].
  rewrite He, Hs. split; [apply executions_spy|done].
Qed.










End Bounded.

(** ** Stored parameters across [execute] *)

Section Parameters.

Context {R C Tensor : Type} (B : Backend R C Tensor).
#[local] Abbreviation World := (World R Tensor).
#[local] Abbreviation M := (M R Tensor).
#[local] Abbreviation frame := (@frame R Tensor).
#[local] Abbreviation stored_parameter := (@stored_parameter R Tensor).
#[local] Abbreviation slot_of := (@slot_of Tensor).

Lemma get_body_ok t idx (w w' : World) v :
  get_body t idx w = (Ok v, w') ↔ w' = w ∧ stored_parameter t (store w) idx = Some v.
Proof.
  unfold get_body, stored_parameter, slot_of, read_slot, bind, lift, load.
  destruct (_par_info t !! idx) as [info|]; simpl; [|naive_solver].
  destruct (store w !! par_op info) as [o|]; simpl; [|naive_solver].
  destruct (parameters o !! par_p_idx info); simpl; naive_solver.
Qed.

Lemma get_loop_ok t idxs (w w' : World) vs :
  mapM (get_body t) idxs w = (Ok vs, w')
  ↔ w' = w ∧ Forall2 (λ idx v, stored_parameter t (store w) idx = Some v) idxs vs.
Proof.
  revert vs. induction idxs as [|idx idxs IH]; intros vs; simpl.
  - split.
    + intros [= <- <-]. split; [done|constructor].
    + intros [-> H]. by apply Forall2_nil_inv_l in H as ->.
  - split.
    + intros H. apply bind_ok in H as (v & w1 & Hv & H).
      apply get_body_ok in Hv as [-> Hv].
      apply bind_ok in H as (vs' & w2 & Hvs & H). injection H as <- <-.
      apply IH in Hvs as [-> Hvs]. split; [done|by constructor].
    + intros [-> H]. apply Forall2_cons_inv_l in H as (v & vs' & Hv & Hvs & ->).
      apply bind_ok. exists v, w. split; [by apply get_body_ok|].
      apply bind_ok. exists vs', w. split; [by apply IH|done].
Qed.

Lemma get_parameters_ok (w w' : World) vs :
  get_parameters w = (Ok vs, w')
  ↔ w' = w ∧ Forall2 (λ idx v, stored_parameter (self w) (store w) idx = Some v)
                     (trainable_params (self w)) vs.
Proof. apply get_loop_ok. Qed.

Lemma set_body_ok t idx p (w w' : World) :
  set_body t (idx, p) w = (Ok tt, w') →
  ∃ sl o, slot_of t idx = Some sl ∧ store w !! sl.1 = Some o
          ∧ sl.2 < length (parameters o)
          ∧ w' = mkWorld (<[sl.1 := set_parameter sl.2 p o]> (store w))
                         (self w) (device w) (trace w).
Proof.
  unfold set_body, slot_of. simpl. intros H.
  apply bind_ok in H as (info & w0 & Hinfo & H).
  apply lift_ok in Hinfo as [Hinfo ->]. apply of_option_ok in Hinfo.
  apply bind_ok in H as (o & w0 & Ho & H). apply load_ok in Ho as [Ho ->].
  destruct (decide (par_p_idx info < length (parameters o))); [|done].
  unfold update, bind, load in H. rewrite Ho in H. simpl in H. injection H as <-.
  exists (par_op info, par_p_idx info), o. rewrite Hinfo. done.
Qed.

Lemma read_slot_write st sl (o : Operation R) p sl' :
  st !! sl.1 = Some o → sl.2 < length (parameters o) →
  read_slot (<[sl.1 := set_parameter sl.2 p o]> st) sl'
  = if decide (sl' = sl) then Some p else read_slot st sl'.
Proof.
  intros Ho Hlt. unfold read_slot. destruct sl as [r i], sl' as [r' i']. simpl in *.
  destruct (decide (r' = r)) as [->|Hr].
  - rewrite list_lookup_insert_eq by (by eapply lookup_lt_Some). simpl.
    rewrite Ho. simpl. destruct (decide (i' = i)) as [->|Hi].
    + rewrite decide_True by done. by apply list_lookup_insert_eq.
    + rewrite decide_False by congruence. by apply list_lookup_insert_ne.
  - rewrite list_lookup_insert_ne by done. rewrite decide_False by congruence. done.
Qed.

(** A place that holds [v] still holds [v] after a loop of writes in
    which every write to this place writes [v]. *)
Lemma set_loop_keeps t pairs (w w' : World) sl v :
  forM_ pairs (set_body t) w = (Ok tt, w') →
  read_slot (store w) sl = Some v →
  (∀ idx p, (idx, p) ∈ pairs → slot_of t idx = Some sl → p = v) →
  read_slot (store w') sl = Some v.
Proof.
  revert w. induction pairs as [|[idx p] pairs IH]; intros w; simpl.
  - by intros [= <-].
  - intros H Hread Hsame. apply bind_ok in H as ([] & w1 & Hstep & H).
    apply set_body_ok in Hstep as (sl1 & o & Hsl1 & Ho & Hlt & ->).
    apply (IH _ H); simpl.
    + rewrite read_slot_write by done. case_decide as Heq; [|done].
      subst sl1. f_equal. apply (Hsame idx p); [left|done].
    + intros idx' p' Hin. apply Hsame. by right.
Qed.

(** After a loop of writes in which writes to the same place write the
    same value, every place holds what was written to it. *)
Lemma set_loop_sets t idxs vs (w w' : World) :
  length idxs = length vs →
  forM_ (zip idxs vs) (set_body t) w = (Ok tt, w') →
  (∀ idx1 p1 idx2 p2, (idx1, p1) ∈ zip idxs vs → (idx2, p2) ∈ zip idxs vs →
                      is_Some (slot_of t idx1) → slot_of t idx1 = slot_of t idx2 →
                      p1 = p2) →
  Forall2 (λ idx v, stored_parameter t (store w') idx = Some v) idxs vs.
Proof.
  revert vs w. induction idxs as [|idx idxs IH]; intros [|v vs] w Hlen; simpl in *;
    try done.
  intros H Hcons. apply bind_ok in H as ([] & w1 & Hstep & H).
  apply set_body_ok in Hstep as (sl & o & Hsl & Ho & Hlt & ->).
  constructor.
  - unfold stored_parameter. rewrite Hsl. simpl.
    apply (set_loop_keeps _ _ _ _ _ _ H); simpl.
    + rewrite read_slot_write by done. by rewrite decide_True.
    + intros idx' p' Hin Hsl'. symmetry.
      apply (Hcons idx v idx' p'); [left|by right|by rewrite Hsl|congruence].
  - apply (IH vs _ ltac:(lia) H).
    intros idx1 p1 idx2 p2 H1 H2. apply Hcons; by right.
Qed.

(** Writing back the values that were read puts every stored parameter
    back, whatever was written in between. *)
Lemma set_parameters_restores (w0 w1 w2 : World) saved :
  Forall2 (λ idx v, stored_parameter (self w0) (store w0) idx = Some v)
          (trainable_params (self w0)) saved →
  trainable_params (self w1) = trainable_params (self w0) →
  _par_info (self w1) = _par_info (self w0) →
  set_parameters saved w1 = (Ok tt, w2) →
  get_parameters w2 = (Ok saved, w2).
Proof.
  intros Hsaved Htr Hpi Hset.
  destruct (calm_run _ _ _ _ (calm_set_parameters saved) Hset) as (Hs2 & _ & _).
  unfold set_parameters in Hset.
  apply bind_ok in Hset as (t & w' & Ht & Hset). injection Ht as <- <-.
  destruct (decide (length saved = length (trainable_params (self w1)))) as [Hlen|];
    [|done].
  apply get_parameters_ok. split; [done|]. rewrite Hs2.
  assert (∀ idx, slot_of (self w1) idx = slot_of (self w0) idx) as Hslot
    by (intros idx; unfold slot_of; by rewrite Hpi).
  apply (set_loop_sets (self w1)) in Hset; [done|done|].
  rewrite Htr. intros idx1 p1 idx2 p2 H1 H2 [sl Hsl] Heq.
  apply list_elem_of_lookup in H1 as [i1 H1]. apply list_elem_of_lookup in H2 as [i2 H2].
  apply lookup_zip_with_Some in H1 as (? & ? & [= <- <-] & Hi1 & Hv1).
  apply lookup_zip_with_Some in H2 as (? & ? & [= <- <-] & Hi2 & Hv2).
  destruct (Forall2_lookup_l _ _ _ _ _ Hsaved Hi1) as (v1 & Hv1' & Hp1).
  destruct (Forall2_lookup_l _ _ _ _ _ Hsaved Hi2) as (v2 & Hv2' & Hp2).
  unfold stored_parameter in Hp1, Hp2.
  rewrite <- !Hslot, <- Heq in *. congruence.
Qed.

Lemma execute_device_restores (params : list R) (w w' : World) res :
  execute_device B params w = (Ok res, w') →
  ∃ saved, get_parameters w = (Ok saved, w) ∧ get_parameters w' = (Ok saved, w').
Proof.
  unfold execute_device. intros H.
  apply bind_ok in H as ([] & w0 & Hspy & H). injection Hspy as <-.
  apply bind_ok in H as (saved & w0 & Hget & H).
  apply get_parameters_ok in Hget as [-> Hsaved]. simpl in Hsaved.
  apply bind_ok in H as ([] & w1 & Hset & H).
  pose proof (frame_run _ _ _ _ (frame_set_parameters params) Hset) as Hf1.
  apply bind_ok in H as (t & w2 & Ht & H). injection Ht as <- <-.
  apply bind_ok in H as (c & w2 & Hsnap & H).
  pose proof (frame_run _ _ _ _ (frame_snapshot _ _) Hsnap) as Hf2.
  apply bind_ok in H as (raw & w3 & Hexec & H).
  pose proof (frame_run _ _ _ _ (frame_call_device_execute B c) Hexec) as Hf3.
  apply bind_ok in H as ([] & w4 & Hset' & H). injection H as <- <-.
  assert (frame w w3) as [_ _ Hpi Htr _].
  { etrans; [|exact Hf3]. etrans; [|exact Hf2]. destruct Hf1. by split. }
  exists saved. split; [by apply get_parameters_ok|].
  by eapply (set_parameters_restores w w3).
Qed.

(** [execute] with explicit values: when the call returns, the stored
    values of the trainable parameters are those that were stored before
    the call. *)
Lemma execute_restores_parameters (V : list R) (w w' : World) res :
  execute B (Some V) w = (Ok res, w') →
  ∃ saved, get_parameters w = (Ok saved, w) ∧ get_parameters w' = (Ok saved, w').
Proof.
  intros H. unfold execute in H.
  apply bind_ok in H as (ps & w0 & Hps & H). injection Hps as <- <-.
  by eapply execute_device_restores.
Qed.

End Parameters.

(** ** Gradient-method inference *)

Section GradMethod.

Context {R C Tensor : Type}.
#[local] Abbreviation World := (World R Tensor).
#[local] Abbreviation points_to := (@points_to R).

(** All the entries of [best] are ["0"] exactly when no observable is
    reached, unless the default itself is ["0"]; the tag is the same in
    both cases. *)
Lemma best_all_zero (o : Operation R) later (obs : list (Observable Tensor))
    (default_method : string) :
  (if forallb (λ k, bool_decide (k = "0"))
              (map (λ ob, if has_path o later ob then default_method else "0") obs)
   then Some "0" else Some default_method)
  = (if forallb (λ ob, negb (has_path o later ob)) obs
     then Some "0" else Some default_method).
Proof.
  destruct (decide (default_method = "0")) as [->|Hd].
  - by repeat case_match.
  - replace (forallb (λ k, bool_decide (k = "0"))
               (map (λ ob, if has_path o later ob then default_method else "0") obs))
      with (forallb (λ ob, negb (has_path o later ob)) obs); [done|].
    induction obs as [|ob obs IH]; simpl; [done|]. rewrite IH.
    destruct (has_path o later ob); simpl; [|done].
    by rewrite bool_decide_eq_false_2.
Qed.

Lemma QuantumTape__grad_method_run (idx : nat) (use_graph : bool)
    (default_method : string) (w : World) info o op_idx later :
  _par_info (self w) !! idx = Some info →
  store w !! par_op info = Some o →
  py_index (par_op info) (operations (self w)) = Some op_idx →
  points_to (store w) (py_slice_from (operations (self w)) (op_idx + 1)) later →
  (QuantumTape__grad_method idx use_graph default_method w).1 =
  Ok (inferred_tag o later (observables (self w))
                   (graph_built (self w) || use_graph) default_method).
Proof.
  intros Hinfo Ho Hidx Hlater.
  unfold QuantumTape__grad_method, inferred_tag, bind at 1, get_self. simpl.
  unfold bind at 1, lift. rewrite Hinfo. simpl.
  unfold bind at 1. rewrite (proj2 (load_ok _ w o w) (conj Ho eq_refl)).
  destruct (grad_method o); [|done].
  destruct (graph_built (self w) || use_graph); simpl; [|done].
  unfold bind at 1, set_graph_built, bind at 1, get_self, put_self. simpl.
  unfold bind at 1, lift. rewrite Hidx. simpl.
  unfold bind at 1. erewrite mapM_load_run by exact Hlater.
  rewrite <- best_all_zero. by case_match.
Qed.

(** C8 (as amended): [ReversibleTape._grad_method] is the inference of the
    base tape with the default tag ["A"] where the base tape has ["F"].
    For a parameter of the tape, the inference gives no tag when the
    owning operation cannot be differentiated; otherwise, when the graph is
    consulted and no observable is reached from the owning operation, it
    gives ["0"]; otherwise it gives the default tag, which is ["F"] for the
    base tape and ["A"] for the reversible tape. *)
Theorem grad_method_inference (idx : nat) (w : World) (info : ParInfo)
    (o : Operation R) (op_idx : nat) (later : list (Operation R)) :
  _par_info (self w) !! idx = Some info →
  store w !! par_op info = Some o →
  py_index (par_op info) (operations (self w)) = Some op_idx →
  points_to (store w) (py_slice_from (operations (self w)) (op_idx + 1)) later →
  (∀ use_graph default_method,
     _grad_method idx use_graph default_method w
     = QuantumTape__grad_method idx use_graph default_method w
     ∧ (QuantumTape__grad_method idx use_graph default_method w).1
       = Ok (inferred_tag o later (observables (self w))
                          (graph_built (self w) || use_graph) default_method))
  ∧ (QuantumTape__grad_method idx true "F" w).1
    = Ok (match grad_method o with
          | None => None
          | Some _ =>
              if forallb (λ ob, negb (has_path o later ob)) (observables (self w))
              then Some "0" else Some "F"
          end)
  ∧ (_grad_method idx true "A" w).1
    = Ok (match grad_method o with
          | None => None
          | Some _ =>
              if forallb (λ ob, negb (has_path o later ob)) (observables (self w))
              then Some "0" else Some "A"
          end).
Proof.
  intros Hinfo Ho Hidx Hlater.
  pose proof (λ u d, QuantumTape__grad_method_run idx u d w info o op_idx later
                       Hinfo Ho Hidx Hlater) as Hrun.
  split_and!.
  - intros use_graph default_method. split; [done|apply Hrun].
  - rewrite Hrun. unfold inferred_tag. by rewrite orb_true_r.
  - unfold _grad_method. rewrite Hrun. unfold inferred_tag. by rewrite orb_true_r.
Qed.

End GradMethod.

(** [TestGradMethod.test_independent] on the base tape: the parameter of
    the RX on the measured wire has the tag ["F"], the parameter of the RY
    on the other wire has the tag ["0"], and without the graph that
    parameter has the tag ["F"] too. *)
Example test_independent :
  (QuantumTape__grad_method 0 true "F" Toy.world_independent).1 = Ok (Some "F")
  ∧ (QuantumTape__grad_method 1 true "F" Toy.world_independent).1 = Ok (Some "0")
  ∧ (QuantumTape__grad_method 1 false "F" Toy.world_independent).1 = Ok (Some "F").
Proof. by vm_compute. Qed.

(** [TestGradMethod.test_non_differentiable] on the base tape. *)
Example test_non_differentiable :
  (QuantumTape__grad_method 0 true "F" Toy.world_non_differentiable).1 = Ok None
  ∧ (QuantumTape__grad_method 1 true "F" Toy.world_non_differentiable).1 = Ok (Some "F")
  ∧ (QuantumTape__grad_method 2 true "F" Toy.world_non_differentiable).1 = Ok (Some "F").
Proof. by vm_compute. Qed.

(** The same tapes as reversible tapes: ["A"] in the place of ["F"]. *)
Example reversible_tags :
  (_grad_method 0 true "A" Toy.world_independent).1 = Ok (Some "A")
  ∧ (_grad_method 1 true "A" Toy.world_independent).1 = Ok (Some "0")
  ∧ (_grad_method 0 true "A" Toy.world_non_differentiable).1 = Ok None
  ∧ (_grad_method 1 true "A" Toy.world_non_differentiable).1 = Ok (Some "A").
Proof. by vm_compute. Qed.

(** C8, as it is worded, fails: on the tape of [test_independent] the RX
    has an analytic rule and the observable depends on it, so that the
    rules give ["A"], and the base tape gives ["F"]; on the tape of
    [test_non_differentiable] the state preparation has no rule at all, so
    that the rules give ["F"], and both tapes give no tag. *)
Lemma grad_method_not_section_4_3 :
  (QuantumTape__grad_method 0 true "F" Toy.world_independent).1 = Ok (Some "F")
  ∧ rules_of_section_4_3 (Toy.gate "RX" [0] [543%Z]) [Toy.gate "RY" [1] [(-654)%Z]]
      (observables (self Toy.world_independent)) = "A"
  ∧ (QuantumTape__grad_method 0 true "F" Toy.world_non_differentiable).1 = Ok None
  ∧ (_grad_method 0 true "A" Toy.world_non_differentiable).1 = Ok None
  ∧ rules_of_section_4_3 (mkOperation "QubitStateVector" [0; 1] [0%Z] false None)
      [Toy.gate "RX" [0] [543%Z]; Toy.gate "RY" [1] [(-654)%Z]; Toy.gate "CNOT" [0; 1] []]
      (observables (self Toy.world_non_differentiable)) = "F".
Proof. by vm_compute. Qed.

Lemma grad_method_inference_witness :
  (_par_info (self Toy.world_independent) !! 1 = Some (mkParInfo 1 0)
   ∧ store Toy.world_independent !! 1 = Some (Toy.gate "RY" [1] [(-654)%Z])
   ∧ py_index 1 (operations (self Toy.world_independent)) = Some 1
   ∧ points_to (store Toy.world_independent)
       (py_slice_from (operations (self Toy.world_independent)) 2) [])
  ∧ (QuantumTape__grad_method 1 true "F" Toy.world_independent).1 = Ok (Some "0")
  ∧ (_grad_method 1 true "A" Toy.world_independent).1 = Ok (Some "0").
Proof.
  assert (_par_info (self Toy.world_independent) !! 1 = Some (mkParInfo 1 0)) as H1
    by (vm_compute; reflexivity).
  assert (store Toy.world_independent !! par_op (mkParInfo 1 0)
          = Some (Toy.gate "RY" [1] [(-654)%Z])) as H2 by reflexivity.
  assert (py_index (par_op (mkParInfo 1 0)) (operations (self Toy.world_independent))
          = Some 1) as H3 by reflexivity.
  assert (points_to (store Toy.world_independent)
            (py_slice_from (operations (self Toy.world_independent)) (1 + 1)) []) as H4
    by (vm_compute; constructor).
  split; [by split_and!|].
  exact (proj2 (grad_method_inference 1 Toy.world_independent (mkParInfo 1 0)
                  (Toy.gate "RY" [1] [(-654)%Z]) 1 [] H1 H2 H3 H4)).
Defined.

(** ** The claims on the example tapes *)




(** The derivative with respect to the angle of the RY of the tape RX, RY,
    CNOT. *)
Lemma analytic_pd_value_witness :
  let w := Toy.world1 in
  let w' := (analytic_pd (Toy.backend 2) 1 [5; 6]%Z w).2 in
  analytic_pd (Toy.backend 2) 1 [5; 6]%Z w = (Ok [(-24)%Z], w')
  ∧ ∃ multiplier state before c seeded dstate,
      self_state (self w') = Some state
      ∧ trace w' = before ++ [Spy_device_execute c seeded]
      ∧ dstate = _pre_rotated_state (device_execute (Toy.backend 2) c seeded).1
      ∧ (∃ t_idx info o source g,
           trainable_params (self w) !! 1 = Some t_idx
           ∧ _par_info (self w) !! t_idx = Some info
           ∧ store w' !! par_op info = Some o
           ∧ generator_source (Toy.backend 2) o (par_p_idx info) = Some source
           ∧ generator (Toy.backend 2) (name source) = (Some g, multiplier))
      ∧ length [(-24)%Z] = length (observables (self w))
      ∧ ∀ i ob, observables (self w) !! i = Some ob →
          ∃ elem, _matrix_elem (Toy.backend 2) dstate ob state = Ok elem
                  ∧ [(-24)%Z] !! i
                    = Some (rmul (Toy.backend 2)
                              (rmul (Toy.backend 2) (two (Toy.backend 2)) multiplier)
                              (imag (Toy.backend 2) elem)).
Proof.
  cbv zeta.
  assert (analytic_pd (Toy.backend 2) 1 [5; 6]%Z Toy.world1
          = (Ok [(-24)%Z], (analytic_pd (Toy.backend 2) 1 [5; 6]%Z Toy.world1).2)) as H
    by (vm_compute; reflexivity).
  split; [exact H|].
  exact (analytic_pd_value (Toy.backend 2) 1 [5; 6]%Z Toy.world1 _ _ H).
Defined.

(** Two calls in a row on the tape RX, RY, CNOT. *)
Lemma analytic_pd_restores_device_witness :
  let w := Toy.world1 in
  let w' := (analytic_pd (Toy.backend 2) 0 [5; 6]%Z w).2 in
  let w'' := (analytic_pd (Toy.backend 2) 1 [5; 6]%Z w').2 in
  analytic_pd (Toy.backend 2) 0 [5; 6]%Z w = (Ok [(-24)%Z], w')
  ∧ analytic_pd (Toy.backend 2) 1 [5; 6]%Z w' = (Ok [(-24)%Z], w'')
  ∧ ∃ state,
      self_state (self w') = Some state
      ∧ _pre_rotated_state (device w') = state
      ∧ (∀ s, self_state (self w) = Some s → state = s)
      ∧ (∃ before c seeded,
           trace w' = before ++ [Spy_device_execute c seeded] ∧ _state seeded = state)
      ∧ (analytic_pd (Toy.backend 2) 1 [5; 6]%Z w' = (Ok [(-24)%Z], w'') →
         self_state (self w'') = Some state
         ∧ _pre_rotated_state (device w'') = state
         ∧ ∃ c2 seeded2,
             trace w'' = trace w' ++ [Spy_device_execute c2 seeded2]
             ∧ _state seeded2 = state).
Proof.
  cbv zeta.
  assert (analytic_pd (Toy.backend 2) 0 [5; 6]%Z Toy.world1
          = (Ok [(-24)%Z], (analytic_pd (Toy.backend 2) 0 [5; 6]%Z Toy.world1).2)) as H
    by (vm_compute; reflexivity).
  split_and!; [exact H|vm_compute; reflexivity|].
  exact (analytic_pd_restores_device (Toy.backend 2) 0 1 [5; 6]%Z [5; 6]%Z Toy.world1
           _ _ _ [(-24)%Z] H).
Defined.

(** A tape with a variance: RX, var(Z0). *)
Lemma analytic_pd_unsupported_witness :
  let w := Toy.world_var in
  (trainable_params (self w) !! 0 = Some 0
   ∧ _par_info (self w) !! 0 = Some (mkParInfo 0 0))
  ∧ ((∃ m, m ∈ measurements (self w) ∧ unsupported_measurement m) →
     ∃ m, m ∈ measurements (self w) ∧ unsupported_measurement m
          ∧ analytic_pd (Toy.backend 1) 0 [5%Z] w
            = (Raise (measurement_error (Toy.backend 1) m), w))
  ∧ (∀ o, store w !! par_op (mkParInfo 0 0) = Some o → name o ∉ supported_gates →
          (Forall (λ m, ¬ unsupported_measurement m) (measurements (self w)) →
           analytic_pd (Toy.backend 1) 0 [5%Z] w = (Raise (gate_error o), w))
          ∧ ∃ msg, analytic_pd (Toy.backend 1) 0 [5%Z] w = (Raise (ValueError msg), w)).
Proof.
  cbv zeta.
  assert (trainable_params (self Toy.world_var) !! 0 = Some 0) as H1 by reflexivity.
  assert (_par_info (self Toy.world_var) !! 0 = Some (mkParInfo 0 0)) as H2
    by (vm_compute; reflexivity).
  split; [by split|].
  exact (analytic_pd_unsupported (Toy.backend 1) 0 [5%Z] Toy.world_var 0 (mkParInfo 0 0)
           H1 H2).
Defined.

(** The errors of [analytic_pd] on a tape with a variance and on a tape
    with a controlled rotation. *)
Example analytic_pd_rejects :
  analytic_pd (Toy.backend 1) 0 [5%Z] Toy.world_var
  = (Raise (ValueError "var is not supported with the reversible gradient method"),
     Toy.world_var)
  ∧ analytic_pd (Toy.backend 2) 0 [5%Z] Toy.world_crx
    = (Raise (ValueError ("The CRX gate is not currently supported with the "
                            +:+ "reversible gradient method.")),
       Toy.world_crx).
Proof. by vm_compute. Qed.


Example matrix_elem_ZX :
  _matrix_elem (Toy.backend 2) Toy.Ket0 (mkObservable "ZX" [0; 1] (Toy.Matrix "ZX"))
               Toy.Ket0
  = Ok (Toy.Contraction (list_ascii_of_string "ab,abcd,cd->") (Toy.Conj Toy.Ket0)
          (Toy.Reshaped (Toy.Matrix "ZX") [2; 2; 2; 2]) Toy.Ket0).
Proof. reflexivity. Qed.

(** C9: the stored values are kept by [execute], and by [jacobian] of the
    base tape, but not by [jacobian] of the reversible tape.  Whenever
    [execute] is called with explicit values and returns, [get_parameters]
    gives the same list before and after.  On the tape RX(543), RY(-654),
    CNOT with the values 5 and 6, [jacobian] of the base tape returns and
    leaves 543 and -654 stored, as [TestJacobian.test_parameters] asserts;
    [jacobian] of the reversible tape returns and leaves 5 and 6 stored:
    [analytic_pd] writes the values into the operations and nothing puts
    the former values back. *)
Theorem jacobian_leaves_explicit_parameters :
  (∀ (R C Tensor : Type) (B : Backend R C Tensor) (V : list R)
     (w w' : World R Tensor) res,
     execute B (Some V) w = (Ok res, w') →
     ∃ saved, get_parameters w = (Ok saved, w) ∧ get_parameters w' = (Ok saved, w'))
  ∧ (get_parameters Toy.world1).1 = Ok [543; -654]%Z
  ∧ (get_parameters (execute (Toy.backend 2) (Some [5; 6]%Z) Toy.world1).2).1
    = Ok [543; -654]%Z
  ∧ (QuantumTape_jacobian (Toy.backend 2) (λ idx, QuantumTape__grad_method idx true "F")
       QuantumTape_analytic_pd (Some [5; 6]%Z) (mkOptions "best" 1) Toy.world1).1
    = Ok [Some [0%Z]; Some [0%Z]]
  ∧ (get_parameters
       (QuantumTape_jacobian (Toy.backend 2)
          (λ idx, QuantumTape__grad_method idx true "F")
          QuantumTape_analytic_pd (Some [5; 6]%Z) (mkOptions "best" 1) Toy.world1).2).1
    = Ok [543; -654]%Z
  ∧ (jacobian (Toy.backend 2) (Some [5; 6]%Z) (mkOptions "best" 1) Toy.world1).1
    = Ok [Some [(-24)%Z]; Some [(-24)%Z]]
  ∧ (get_parameters
       (jacobian (Toy.backend 2) (Some [5; 6]%Z) (mkOptions "best" 1) Toy.world1).2).1
    = Ok [5; 6]%Z.
Proof.
  split; [intros R C Tensor B V w w' res; apply execute_restores_parameters|].
  by vm_compute.
Qed.

(** One run of the full tape in a call of [jacobian], for two parameters. *)
Example jacobian_world1_executions :
  executions (jacobian (Toy.backend 2) (Some [5; 6]%Z) (mkOptions "analytic" 1)
                Toy.world1).2 = 1.
Proof. by vm_compute. Qed.

(** ** Further properties of [_matrix_elem] and [analytic_pd] *)

Section Alphabet.

Context {R C Tensor : Type} (B : Backend R C Tensor).

Lemma ABC_ARRAY_take_raise (idx : list nat) :
  Exists (λ i, 52 ≤ i) idx → ABC_ARRAY_take idx = Raise IndexError.
Proof.
  unfold ABC_ARRAY_take. induction idx as [|i idx IH]; intros H.
  - by apply Exists_nil in H.
  - simpl. destruct (ABC !! i) as [c|] eqn:Hc; simpl; [|done].
    apply Exists_cons in H as [H|H].
    + apply lookup_lt_Some in Hc. rewrite ABC_length in Hc. lia.
    + by rewrite IH.
Qed.

(** The letters of [ABC] bound what [_matrix_elem] can index.  A wire of
    the observable at position 52 or beyond raises [IndexError].  With all
    its wires below 52 the call returns; the subscripts of the two vectors
    have the same length, and the slice of the output letters is cut at
    the end of [ABC]: when the wires of the device and of the observable
    together exceed 52, there are fewer output letters than wires of the
    observable, although the matrix is reshaped to two axes per wire. *)
Theorem matrix_elem_alphabet (vec1 vec2 : Tensor) (ob : Observable Tensor) :
  (Exists (λ w, 52 ≤ w) (obs_wires ob) → _matrix_elem B vec1 ob vec2 = Raise IndexError)
  ∧ (Forall (λ w, w < 52) (obs_wires ob) →
     ∃ v1 o_in o_out v2 : list ascii,
       _matrix_elem B vec1 ob vec2
         = Ok (_einsum B
                 (v1 ++ list_ascii_of_string "," ++ (o_in ++ o_out)
                     ++ list_ascii_of_string "," ++ v2 ++ list_ascii_of_string "->")
                 (_conj B vec1)
                 (_reshape B (obs_matrix ob) (replicate (2 * length (obs_wires ob)) 2))
                 vec2)
       ∧ length v1 = num_wires B `min` 52
       ∧ length v2 = length v1
       ∧ length o_in = length (obs_wires ob)
       ∧ length o_out = length (obs_wires ob) `min` (52 - num_wires B)).
Proof.
  split.
  - intros H. unfold _matrix_elem. by rewrite ABC_ARRAY_take_raise.
  - intros H. destruct (ABC_ARRAY_take_ok _ H) as (s & Hs & Hlen & _).
    unfold _matrix_elem. rewrite Hs, py_list_mul_shape. simpl.
    eexists _, s, _, _. split; [reflexivity|].
    rewrite fold_str_replace, length_map. unfold py_slice.
    rewrite !length_take, length_drop, ABC_length.
    split_and!; [done|done|done|lia].
Qed.

End Alphabet.

Section EarlyExits.

Context {R C Tensor : Type} (B : Backend R C Tensor).
#[local] Abbreviation World := (World R Tensor).

(** The lookups and checks at the start of [analytic_pd], in their order.
    An index beyond the trainable parameters raises [IndexError]; a
    trainable parameter without an entry in the parameter table raises
    [KeyError]; and with an entry, the first variance or probability among
    the measurements, in declared order, is the one named in the error,
    whatever the owning operation is.  In each case the world is the one
    of the call. *)
Theorem analytic_pd_early_exits (idx : nat) (params : list R) (w : World) :
  (length (trainable_params (self w)) ≤ idx →
   analytic_pd B idx params w = (Raise IndexError, w))
  ∧ (∀ t_idx, trainable_params (self w) !! idx = Some t_idx →
       (_par_info (self w) !! t_idx = None →
        analytic_pd B idx params w = (Raise KeyError, w))
       ∧ (∀ info i m,
            _par_info (self w) !! t_idx = Some info →
            list_find unsupported_measurement (measurements (self w)) = Some (i, m) →
            analytic_pd B idx params w = (Raise (measurement_error B m), w))).
Proof.
  split.
  - intros Hlen. apply lookup_ge_None in Hlen.
    unfold analytic_pd, bind at 1, get_self. simpl.
    unfold bind at 1, lift. by rewrite Hlen.
  - intros t_idx Ht. split.
    + intros Hnone. unfold analytic_pd, bind at 1, get_self. simpl.
      unfold bind at 1, lift. rewrite Ht. simpl.
      unfold bind at 1. by rewrite Hnone.
    + intros info i m Hinfo Hfind. unfold analytic_pd, bind at 1, get_self. simpl.
      unfold bind at 1, lift. rewrite Ht. simpl.
      unfold bind at 1. rewrite Hinfo. simpl.
      unfold bind at 1. by rewrite check_measurements_run, Hfind.
Qed.

(** When [analytic_pd] returns, only the pre-rotated state of the device
    has been put back: the state of the device is the one that the run of
    the replay circuit left. *)
Theorem analytic_pd_device_state (idx : nat) (params : list R) (w w' : World)
    (res : list R) :
  analytic_pd B idx params w = (Ok res, w') →
  ∃ state before c seeded,
    self_state (self w') = Some state
    ∧ trace w' = before ++ [Spy_device_execute c seeded]
    ∧ _state seeded = state
    ∧ _state (device w') = _state (device_execute B c seeded).1
    ∧ _pre_rotated_state (device w') = state.
Proof.
  intros H. apply analytic_pd_ok in H.
  destruct H as [? ? ? ? ? ? ? ? state before seeded ? ? ? ? ? ? ? ? ? ?
                   Hstate Hcache Hseed Htrace Hdev ? ?].
  eexists state, before, _, seeded. split_and!; [done|exact Htrace|done| |];
    by rewrite Hdev.
Qed.

End EarlyExits.

Section Overwrite.

Context {R C Tensor : Type} (B : Backend R C Tensor).
#[local] Abbreviation World := (World R Tensor).
#[local] Abbreviation slot_of := (@slot_of Tensor).
#[local] Abbreviation stored_parameter := (@stored_parameter R Tensor).

Lemma read_slot_app (st ext : list (Operation R)) sl v :
  read_slot st sl = Some v → read_slot (st ++ ext) sl = Some v.
Proof.
  unfold read_slot. intros H. destruct (st !! sl.1) as [o|] eqn:Ho; [|done].
  by rewrite (lookup_app_l_Some _ _ _ _ Ho).
Qed.

(** When the trainable parameters are stored in places that differ from
    each other, [set_parameters] leaves each place with its value. *)
Lemma set_parameters_sets (params : list R) (w w' : World) :
  NoDup (slot_of (self w) <$> trainable_params (self w)) →
  set_parameters params w = (Ok tt, w') →
  self w' = self w
  ∧ Forall2 (λ idx v, stored_parameter (self w) (store w') idx = Some v)
            (trainable_params (self w)) params.
Proof.
  intros Hnd Hset.
  destruct (calm_run _ _ _ _ (calm_set_parameters params) Hset) as (Hs & _ & _).
  split; [done|].
  unfold set_parameters in Hset.
  apply bind_ok in Hset as (t & w0 & Ht & Hset). injection Ht as <- <-.
  destruct (decide (length params = length (trainable_params (self w)))) as [Hlen|];
    [|done].
  apply (set_loop_sets (self w)) in Hset; [done|done|].
  intros idx1 p1 idx2 p2 H1 H2 _ Heq.
  apply list_elem_of_lookup in H1 as [i1 H1]. apply list_elem_of_lookup in H2 as [i2 H2].
  apply lookup_zip_with_Some in H1 as (? & ? & [= <- <-] & Hi1 & Hv1).
  apply lookup_zip_with_Some in H2 as (? & ? & [= <- <-] & Hi2 & Hv2).
  assert (i1 = i2) as ->; [|congruence].
  eapply NoDup_lookup; [exact Hnd| |]; rewrite list_lookup_fmap.
  - by rewrite Hi1.
  - rewrite Hi2. simpl. by rewrite Heq.
Qed.

(** [analytic_pd] writes the values it is given into the operations and
    does not put the former values back: when it returns, the stored
    values of the trainable parameters are [params].  The trainable
    parameters are stored in places that differ from each other. *)
Theorem analytic_pd_overwrites_parameters (idx : nat) (params : list R) (w w' : World)
    (res : list R) :
  NoDup (slot_of (self w) <$> trainable_params (self w)) →
  analytic_pd B idx params w = (Ok res, w') →
  get_parameters w' = (Ok params, w').
Proof.
  intros Hnd H. unfold analytic_pd in H.
  apply bind_ok in H as (t & w0 & Ht & H). injection Ht as <- <-.
  apply bind_ok in H as (t_idx & w0 & Htr & H). apply lift_ok in Htr as [_ ->].
  apply bind_ok in H as (info & w0 & Hinfo & H). apply lift_ok in Hinfo as [_ ->].
  apply bind_ok in H as ([] & w0 & Hmeas & H).
  rewrite check_measurements_run in Hmeas.
  destruct (list_find unsupported_measurement (measurements (self w))) as [[i m]|];
    [done|].
  injection Hmeas as <-.
  apply bind_ok in H as (o0 & w0 & Ho0 & H). apply load_ok in Ho0 as [_ ->].
  destruct (bool_decide (name o0 ∉ supported_gates)); [done|].
  apply bind_ok in H as ([] & w1 & Hcache & H).
  apply bind_ok in H as ([] & w2 & Hset & H).
  apply bind_ok in H as ([diff_ops multiplier] & w3 & Hdiff & H). simpl in H.
  pose proof (frame_run _ _ _ _ (frame_cache_state B params) Hcache) as [_ _ Hpi Htr _].
  assert (slot_of (self w1) <$> trainable_params (self w1)
          = slot_of (self w) <$> trainable_params (self w)) as Hslots.
  { rewrite Htr. apply list_fmap_ext. intros k idx' _. unfold slot_of.
    by rewrite Hpi. }
  rewrite <- Hslots in Hnd.
  apply set_parameters_sets in Hset as [Hs2 Hvals]; [|done].
  apply diff_circuit_ops_ok in Hdiff
    as (o & op_idx & queued_after & source & g & ext
        & _ & _ & _ & _ & (Hs3 & _ & _) & Hst3 & _ & _).
  apply replay_ok in H as (state & vals & elems & _ & _ & _ & _ & ->).
  apply get_parameters_ok. split; [done|]. simpl.
  rewrite Hs3, Hs2, Hst3.
  eapply Forall2_impl; [exact Hvals|]. intros idx' v Hv.
  unfold stored_parameter in *.
  destruct (slot_of (self w1) idx') as [sl|]; simpl in *; [|done].
  by apply read_slot_app.
Qed.

End Overwrite.

Section Refreshed.

Context {R C Tensor : Type} (B : Backend R C Tensor).
#[local] Abbreviation World := (World R Tensor).
#[local] Abbreviation M := (M R Tensor).
#[local] Abbreviation quiet := (@quiet R Tensor).
#[local] Abbreviation refreshed := (@refreshed R Tensor).

#[export] Instance refreshed_preorder : PreOrder refreshed.
Proof.
  split.
  - intros w. split; [done|by left].
  - intros w1 w2 w3 [H1 H1'] [H2 H2']. split; [lia|].
    destruct H1' as [H1'|H1'], H2' as [H2'|H2']; [left; congruence|right; lia..].
Qed.

Lemma preserves_quiet_refreshed {A} (m : M A) :
  preserves quiet m → preserves refreshed m.
Proof. intros H w. destruct (H w) as [He Hs]. split; [lia|by left]. Qed.

Lemma refreshed_execute_device (params : list R) :
  preserves refreshed (execute_device B params).
Proof.
  intros w. destruct (execute_device_executions B params w) as [He Hs].
  split; [lia|by left].
Qed.

Lemma refreshed_cache_state (params : list R) :
  preserves refreshed (cache_state B params).
Proof.
  intros w. unfold cache_state, bind at 1, get_self. simpl.
  destruct (self_state (self w)) as [s|] eqn:Hs; [reflexivity|].
  unfold bind at 1.
  destruct (execute_device_executions B params w) as [He _].
  destruct (execute_device B params w) as [[raw|e] w1]; simpl in *.
  - unfold refreshed, executions in *. simpl. split; [lia|right; lia].
  - split; [lia|right; lia].
Qed.

Lemma refreshed_analytic_pd idx (params : list R) :
  preserves refreshed (analytic_pd B idx params).
Proof.
  unfold analytic_pd.
  pose proof (preserves_quiet_refreshed _ (quiet_check_measurements B)).
  pose proof refreshed_cache_state.
  pose proof (λ ps, preserves_quiet_refreshed _
                      (quiet_set_parameters (R:=R) (Tensor:=Tensor) ps)).
  pose proof (λ op p, preserves_quiet_refreshed _ (quiet_diff_circuit_ops B op p)).
  pose proof (λ d m, preserves_quiet_refreshed _ (quiet_replay B d m)).
  quiet_auto.
Qed.

Lemma refreshed_numeric_pd idx (params : list R) y0 ord :
  preserves refreshed (numeric_pd B idx params y0 ord).
Proof. unfold numeric_pd. pose proof refreshed_execute_device. quiet_auto. Qed.

Lemma refreshed_jacobian_columns opts (params : list R) y0 l diff_methods :
  preserves refreshed (jacobian_columns B (analytic_pd B) opts params y0 l diff_methods).
Proof.
  revert l. induction diff_methods as [|param_method rest IH]; intros l; simpl.
  - quiet_auto.
  - pose proof refreshed_numeric_pd. pose proof refreshed_analytic_pd.
    pose proof (IH (S l)). quiet_auto.
Qed.

Lemma refreshed_QuantumTape_jacobian (params : option (list R)) opts :
  preserves refreshed
    (QuantumTape_jacobian B (λ idx, _grad_method idx true "A") (analytic_pd B)
                          params opts).
Proof.
  unfold QuantumTape_jacobian, jacobian_at, _grad_method.
  pose proof (preserves_quiet_refreshed _ (quiet_get_parameters (R:=R) (Tensor:=Tensor))).
  pose proof (preserves_quiet_refreshed _ (quiet_device_pd B)).
  pose proof (λ i u d, preserves_quiet_refreshed _
                         (quiet_QuantumTape__grad_method (R:=R) (Tensor:=Tensor) i u d)).
  pose proof refreshed_execute_device. pose proof refreshed_jacobian_columns.
  quiet_auto.
Qed.

(** A cached state is never carried from one call of [jacobian] into the
    next.  Every method of the tape changes the cache only together with a
    run of the full tape, and [jacobian] starts by emptying it: when the
    call is over, whatever its outcome, the cache is empty or the full
    tape has been run in this call. *)
Theorem jacobian_cache_fresh (params : option (list R)) (opts : Options) (w : World) :
  (∀ idx ps (w1 : World), refreshed w1 (analytic_pd B idx ps w1).2)
  ∧ (self_state (self (jacobian B params opts w).2) = None
     ∨ executions w < executions (jacobian B params opts w).2).
Proof.
  split; [intros idx ps; apply refreshed_analytic_pd|].
  change (jacobian B params opts w)
    with (QuantumTape_jacobian B (λ idx, _grad_method idx true "A") (analytic_pd B)
                               params opts (cleared w)).
  destruct (refreshed_QuantumTape_jacobian params opts (cleared w)) as [_ [H|H] ].
  - by left.
  - by right.
Qed.

End Refreshed.

(** ** The further properties on the example tapes *)

(** An observable on the wires 0 and 60 of a device with two wires, and
    an observable on the wires 0 and 1 of a device with 51 wires: one
    output letter is left for two wires. *)
Lemma matrix_elem_alphabet_witness :
  let far := mkObservable "ZZ" [0; 60] (Toy.Matrix "ZZ") in
  let ob := mkObservable "ZX" [0; 1] (Toy.Matrix "ZX") in
  (Exists (λ w, 52 ≤ w) (obs_wires far)
   ∧ _matrix_elem (Toy.backend 2) Toy.Ket0 far Toy.Ket0 = Raise IndexError)
  ∧ (Forall (λ w, w < 52) (obs_wires ob)
     ∧ ∃ v1 o_in o_out v2 : list ascii,
         _matrix_elem (Toy.backend 51) Toy.Ket0 ob Toy.Ket0
           = Ok (_einsum (Toy.backend 51)
                   (v1 ++ list_ascii_of_string "," ++ (o_in ++ o_out)
                       ++ list_ascii_of_string "," ++ v2 ++ list_ascii_of_string "->")
                   (_conj (Toy.backend 51) Toy.Ket0)
                   (_reshape (Toy.backend 51) (obs_matrix ob) [2; 2; 2; 2])
                   Toy.Ket0)
         ∧ length v1 = 51
         ∧ length v2 = length v1
         ∧ length o_in = 2
         ∧ length o_out = 1).
Proof.
  cbv zeta.
  assert (Exists (λ w, 52 ≤ w) [0; 60]) as H1 by (apply Exists_cons_tl, Exists_cons_hd; lia).
  assert (Forall (λ w, w < 52) [0; 1]) as H2 by (repeat constructor; lia).
  split.
  - split; [exact H1|].
    exact (proj1 (matrix_elem_alphabet (Toy.backend 2) Toy.Ket0 Toy.Ket0
                    (mkObservable "ZZ" [0; 60] (Toy.Matrix "ZZ"))) H1).
  - split; [exact H2|].
    exact (proj2 (matrix_elem_alphabet (Toy.backend 51) Toy.Ket0 Toy.Ket0
                    (mkObservable "ZX" [0; 1] (Toy.Matrix "ZX"))) H2).
Defined.

(** On the tape CRX, expval(Z0), var(Z1): an index beyond the one
    trainable parameter, and the variance, which is reported although the
    gate is not supported either. *)
Lemma analytic_pd_early_exits_witness :
  let w := Toy.world_crx_var in
  (length (trainable_params (self w)) ≤ 5
   ∧ analytic_pd (Toy.backend 2) 5 [5%Z] w = (Raise IndexError, w))
  ∧ (trainable_params (self w) !! 0 = Some 0
     ∧ _par_info (self w) !! 0 = Some (mkParInfo 0 0)
     ∧ list_find unsupported_measurement (measurements (self w))
       = Some (1, Toy.var "Z" [1])
     ∧ analytic_pd (Toy.backend 2) 0 [5%Z] w
       = (Raise (measurement_error (Toy.backend 2) (Toy.var "Z" [1])), w)).
Proof.
  cbv zeta.
  assert (length (trainable_params (self Toy.world_crx_var)) ≤ 5) as H1
    by (simpl; lia).
  assert (trainable_params (self Toy.world_crx_var) !! 0 = Some 0) as H2 by reflexivity.
  assert (_par_info (self Toy.world_crx_var) !! 0 = Some (mkParInfo 0 0)) as H3
    by (vm_compute; reflexivity).
  assert (list_find unsupported_measurement (measurements (self Toy.world_crx_var))
          = Some (1, Toy.var "Z" [1])) as H4 by (vm_compute; reflexivity).
  split.
  - split; [exact H1|].
    exact (proj1 (analytic_pd_early_exits (Toy.backend 2) 5 [5%Z] Toy.world_crx_var) H1).
  - split_and!; [exact H2|exact H3|exact H4|].
    exact (proj2 (proj2 (analytic_pd_early_exits (Toy.backend 2) 0 [5%Z]
                           Toy.world_crx_var) 0 H2)
             (mkParInfo 0 0) 1 (Toy.var "Z" [1]) H3 H4).
Defined.

(** The device after the derivative with respect to the angle of the RX
    of the tape RX, RY, CNOT. *)
Lemma analytic_pd_device_state_witness :
  let w := Toy.world1 in
  let w' := (analytic_pd (Toy.backend 2) 0 [5; 6]%Z w).2 in
  analytic_pd (Toy.backend 2) 0 [5; 6]%Z w = (Ok [(-24)%Z], w')
  ∧ ∃ state before c seeded,
      self_state (self w') = Some state
      ∧ trace w' = before ++ [Spy_device_execute c seeded]
      ∧ _state seeded = state
      ∧ _state (device w') = _state (device_execute (Toy.backend 2) c seeded).1
      ∧ _pre_rotated_state (device w') = state.
Proof.
  cbv zeta.
  assert (analytic_pd (Toy.backend 2) 0 [5; 6]%Z Toy.world1
          = (Ok [(-24)%Z], (analytic_pd (Toy.backend 2) 0 [5; 6]%Z Toy.world1).2)) as H
    by (vm_compute; reflexivity).
  split; [exact H|].
  exact (analytic_pd_device_state (Toy.backend 2) 0 [5; 6]%Z Toy.world1 _ _ H).
Defined.

(** The state of the device differs from the cached state after the call. *)
Example analytic_pd_device_state_world1 :
  let w' := (analytic_pd (Toy.backend 2) 0 [5; 6]%Z Toy.world1).2 in
  _pre_rotated_state (device w')
  = Toy.Evolved [Toy.gate "RX" [0] [5%Z]; Toy.gate "RY" [1] [6%Z];
                 Toy.gate "CNOT" [0; 1] []] Toy.Ket0
  ∧ _state (device w')
    = Toy.Evolved [toggle_inverse (Toy.gate "CNOT" [0; 1] []);
                   toggle_inverse (Toy.gate "RY" [1] [6%Z]);
                   mkOperation "PauliX" [0] [] false None;
                   Toy.gate "RY" [1] [6%Z];
                   Toy.gate "CNOT" [0; 1] []]
        (_pre_rotated_state (device w')).
Proof. by vm_compute. Qed.

(** The stored parameters of the tape RX, RY, CNOT after a call of
    [analytic_pd] with the values 5 and 6. *)
Lemma analytic_pd_overwrites_parameters_witness :
  let w := Toy.world1 in
  let w' := (analytic_pd (Toy.backend 2) 0 [5; 6]%Z w).2 in
  (NoDup (slot_of (self w) <$> trainable_params (self w))
   ∧ analytic_pd (Toy.backend 2) 0 [5; 6]%Z w = (Ok [(-24)%Z], w'))
  ∧ get_parameters w = (Ok [543; -654]%Z, w)
  ∧ get_parameters w' = (Ok [5; 6]%Z, w').
Proof.
  cbv zeta.
  assert (NoDup (slot_of (self Toy.world1) <$> trainable_params (self Toy.world1)))
    as H1.
  { apply (bool_decide_unpack
             (NoDup (slot_of (self Toy.world1) <$> trainable_params (self Toy.world1)))).
    vm_compute. exact I. }
  assert (analytic_pd (Toy.backend 2) 0 [5; 6]%Z Toy.world1
          = (Ok [(-24)%Z], (analytic_pd (Toy.backend 2) 0 [5; 6]%Z Toy.world1).2)) as H2
    by (vm_compute; reflexivity).
  split_and!; [exact H1|exact H2|vm_compute; reflexivity|].
  exact (analytic_pd_overwrites_parameters (Toy.backend 2) 0 [5; 6]%Z Toy.world1 _ _
           H1 H2).
Defined.
